(** * TodoApp (src/app.js): task state and its persistence

    A shallow embedding of the React component [TodoApp]: the task
    collection held in [useState], the handlers that update it
    ([addTask], [startEdit], [cancelEdit], [toggleComplete], [removeTask],
    [clearCompleted]), the derived view [filteredTasks], the [useState]
    initializer that reads [localStorage] and the [useEffect] that writes
    it back.

    JavaScript strings are sequences of UTF-16 code units, numbers that
    matter here are integers (epoch milliseconds), and the two built-ins the
    component relies on, [JSON.stringify] and [JSON.parse], are modelled
    after ECMA-262 (sections 25.5.1 and 25.5.2). *)

From Stdlib Require Import String Ascii List ZArith NArith Bool Lia.
Import ListNotations.

Set Warnings "-register-all".

(* ================================================================= *)
(** ** JavaScript strings *)

(** A string is the list of its UTF-16 code units. *)
Definition jsstring := list N.

(** A literal of the source, for the characters U+0000..U+00FF. *)
Definition str (s : string) : jsstring :=
  map N_of_ascii (list_ascii_of_string s).

(** [a === b] on strings. *)
Fixpoint str_eqb (a b : jsstring) : bool :=
  match a, b with
  | [], [] => true
  | x :: a', y :: b' => (x =? y)%N && str_eqb a' b'
  | _, _ => false
  end.

(** A string is truthy when it is not empty. *)
Definition truthy_str (s : jsstring) : bool :=
  match s with [] => false | _ :: _ => true end.

(** WhiteSpace and LineTerminator code points, the ones
    [String.prototype.trim] strips. *)
Definition is_space (c : N) : bool :=
  ((9 <=? c) && (c <=? 13)          (* TAB, LF, VT, FF, CR *)
   || (c =? 32) || (c =? 160)       (* SP, NBSP *)
   || (c =? 5760)                   (* U+1680 *)
   || ((8192 <=? c) && (c <=? 8202)) (* U+2000..U+200A *)
   || (c =? 8232) || (c =? 8233)    (* LS, PS *)
   || (c =? 8239) || (c =? 8287)    (* U+202F, U+205F *)
   || (c =? 12288) || (c =? 65279)  (* U+3000, U+FEFF *))%N.

Fixpoint trimStart (s : jsstring) : jsstring :=
  match s with
  | [] => []
  | c :: s' => if is_space c then trimStart s' else s
  end.

Definition trimEnd (s : jsstring) : jsstring := rev (trimStart (rev s)).

(** [s.trim()] *)
Definition trim (s : jsstring) : jsstring := trimEnd (trimStart s).

(** [s.slice(from, to)] for [0 <= from <= to]. *)
Definition slice (from to : nat) (s : jsstring) : jsstring :=
  firstn (to - from) (skipn from s).

(* ================================================================= *)
(** ** Integers as text *)

(** Digit [d] of a radix up to 36: [0-9] then [a-z]. *)
Definition digit_char (d : N) : N :=
  (if d <? 10 then 48 + d else 87 + d)%N.

(** The digits of [n] in radix [r], least significant first. *)
Fixpoint digits_rev (fuel : nat) (r n : N) : list N :=
  match fuel with
  | O => []
  | S fuel' =>
      if (n <? r)%N then [n]
      else (n mod r)%N :: digits_rev fuel' r (n / r)%N
  end.

(** The digits of [n], most significant first; a number below [2^k] has
    at most [k] of them. *)
Definition digits (r n : N) : list N :=
  rev (digits_rev (S (N.to_nat (N.log2 n))) r n).

(** [z.toString(radix)] for an integer [z] (below 1e21 in magnitude when
    the radix is ten, where JavaScript still prints every digit). *)
Definition toString (radix : N) (z : Z) : jsstring :=
  (if (z <? 0)%Z then [45%N] else []) (* - *)
  ++ map digit_char (digits radix (Z.abs_N z)).

(* ================================================================= *)
(** ** Tasks *)

(** The object literal built at lines 75-80. *)
Record Task := mkTask {
  id : jsstring;
  text : jsstring;
  completed : bool;
  createdAt : Z
}.

(** [{ ...t, text: trimmed }] (line 68) *)
Definition with_text (t : Task) (trimmed : jsstring) : Task :=
  mkTask (id t) trimmed (completed t) (createdAt t).

(** [{ ...t, completed: !t.completed }] (line 98) *)
Definition with_toggled (t : Task) : Task :=
  mkTask (id t) (text t) (negb (completed t)) (createdAt t).

(* ================================================================= *)
(** ** JSON values *)

(** The exact value [mant * 10^expo] of a number literal, kept in the
    form with [expo <= 0] and no trailing zero in a fraction.  JavaScript
    rounds it to the nearest double, which leaves every integer of
    magnitude up to 2^53 as it is. *)
Record number := mkNum { mant : Z; expo : Z }.

Definition int_num (z : Z) : number := mkNum z 0.

(** What [JSON.parse] can produce.  An object lists its properties in
    creation order (an engine lists keys that are array indices first;
    task objects have none). *)
Inductive json :=
| JNull
| JBool (b : bool)
| JNum (n : number)
| JStr (s : jsstring)
| JArr (l : list json)
| JObj (l : list (jsstring * json)).

(** A task as the object it is. *)
Definition task_val (t : Task) : json :=
  JObj [ (str "id", JStr (id t));
         (str "text", JStr (text t));
         (str "completed", JBool (completed t));
         (str "createdAt", JNum (int_num (createdAt t))) ].

Definition tasks_val (l : list Task) : json := JArr (map task_val l).

(** Property lookup on an object's property list. *)
Fixpoint obj_get (k : jsstring) (l : list (jsstring * json)) : option json :=
  match l with
  | [] => None
  | (k', v) :: l' => if str_eqb k' k then Some v else obj_get k l'
  end.

(** Property definition: an existing key keeps its place and takes the
    new value, a new key goes last. *)
Fixpoint obj_set (k : jsstring) (v : json) (l : list (jsstring * json))
  : list (jsstring * json) :=
  match l with
  | [] => [(k, v)]
  | (k', v') :: l' =>
      if str_eqb k' k then (k', v) :: l' else (k', v') :: obj_set k v l'
  end.

(** Reading a value back as a task record: the four fields with the
    types of the data model. *)
Definition as_task (v : json) : option Task :=
  match v with
  | JObj l =>
      match obj_get (str "id") l, obj_get (str "text") l,
            obj_get (str "completed") l, obj_get (str "createdAt") l with
      | Some (JStr i), Some (JStr x), Some (JBool c), Some (JNum (mkNum z 0)) =>
          Some (mkTask i x c z)
      | _, _, _, _ => None
      end
  | _ => None
  end.

Fixpoint as_task_list (l : list json) : option (list Task) :=
  match l with
  | [] => Some []
  | v :: l' =>
      match as_task v, as_task_list l' with
      | Some t, Some ts => Some (t :: ts)
      | _, _ => None
      end
  end.

(** Reading a value back as a task collection. *)
Definition as_tasks (v : json) : option (list Task) :=
  match v with
  | JArr l => as_task_list l
  | _ => None
  end.

(* ================================================================= *)
(** ** JSON.stringify, on a task collection *)

Definition is_lead (c : N) : bool := ((55296 <=? c) && (c <=? 56319))%N.
Definition is_trail (c : N) : bool := ((56320 <=? c) && (c <=? 57343))%N.

(** [\uXXXX], four lower-case hexadecimal digits. *)
Definition uescape (c : N) : jsstring :=
  [92; 117; digit_char (c / 4096); digit_char ((c / 256) mod 16);
   digit_char ((c / 16) mod 16); digit_char (c mod 16)]%N.

(** One code unit that is not a surrogate, as QuoteJSONString writes it. *)
Definition escape_char (c : N) : jsstring :=
  (if c =? 8 then [92; 98]           (* \b *)
   else if c =? 9 then [92; 116]     (* \t *)
   else if c =? 10 then [92; 110]    (* \n *)
   else if c =? 12 then [92; 102]    (* \f *)
   else if c =? 13 then [92; 114]    (* \r *)
   else if c =? 34 then [92; 34]     (* quotation mark *)
   else if c =? 92 then [92; 92]     (* reverse solidus *)
   else if c <? 32 then uescape c
   else [c])%N.

(** The characters between the quotation marks: a surrogate pair goes out
    as it is, a lone surrogate as a [\u] escape. *)
Fixpoint quote_chars (s : jsstring) : jsstring :=
  match s with
  | [] => []
  | c :: s' =>
      if is_lead c then
        match s' with
        | d :: s'' =>
            if is_trail d then c :: d :: quote_chars s''
            else uescape c ++ quote_chars s'
        | [] => uescape c
        end
      else if is_trail c then uescape c ++ quote_chars s'
      else escape_char c ++ quote_chars s'
  end.

Definition quote (s : jsstring) : jsstring :=
  [34%N] ++ quote_chars s ++ [34%N].

(** A task object: its four properties in creation order (lines 76-79;
    the spreads at lines 68 and 98 keep that order). *)
Definition stringify_task (t : Task) : jsstring :=
  [123%N]
  ++ quote (str "id") ++ [58%N] ++ quote (id t) ++ [44%N]
  ++ quote (str "text") ++ [58%N] ++ quote (text t) ++ [44%N]
  ++ quote (str "completed") ++ [58%N]
  ++ (if completed t then str "true" else str "false") ++ [44%N]
  ++ quote (str "createdAt") ++ [58%N] ++ toString 10 (createdAt t)
  ++ [125%N].

Fixpoint join_comma (l : list jsstring) : jsstring :=
  match l with
  | [] => []
  | [x] => x
  | x :: l' => x ++ [44%N] ++ join_comma l'
  end.

(** [JSON.stringify(tasks)] (line 47) for an array of task objects. *)
Definition JSON_stringify (tasks : list Task) : jsstring :=
  [91%N] ++ join_comma (map stringify_task tasks) ++ [93%N].

(* ================================================================= *)
(** ** JSON.parse *)

Definition is_ws (c : N) : bool :=
  ((c =? 32) || (c =? 9) || (c =? 10) || (c =? 13))%N.

Fixpoint skip_ws (s : list N) : list N :=
  match s with
  | c :: s' => if is_ws c then skip_ws s' else s
  | [] => []
  end.

Definition is_digit (c : N) : bool := ((48 <=? c) && (c <=? 57))%N.

Definition hex_val (c : N) : option N :=
  (if (48 <=? c) && (c <=? 57) then Some (c - 48)
   else if (97 <=? c) && (c <=? 102) then Some (c - 87)
   else if (65 <=? c) && (c <=? 70) then Some (c - 55)
   else None)%N.

Definition hex4 (a b c d : N) : option N :=
  match hex_val a, hex_val b, hex_val c, hex_val d with
  | Some x, Some y, Some z, Some w => Some (((x * 16 + y) * 16 + z) * 16 + w)%N
  | _, _, _, _ => None
  end.

(** The character after a reverse solidus, other than [u]. *)
Definition unescape (e : N) : option N :=
  (if e =? 34 then Some 34
   else if e =? 92 then Some 92
   else if e =? 47 then Some 47
   else if e =? 98 then Some 8
   else if e =? 102 then Some 12
   else if e =? 110 then Some 10
   else if e =? 114 then Some 13
   else if e =? 116 then Some 9
   else None)%N.

(** A string, from just after its opening quotation mark; gives the
    string and what follows the closing mark. *)
Fixpoint parse_chars (s : list N) : option (jsstring * list N) :=
  match s with
  | [] => None
  | c :: s' =>
      if (c =? 34)%N then Some ([], s')
      else if (c =? 92)%N then
        match s' with
        | [] => None
        | e :: s'' =>
            if (e =? 117)%N then
              match s'' with
              | h1 :: h2 :: h3 :: h4 :: s3 =>
                  match hex4 h1 h2 h3 h4, parse_chars s3 with
                  | Some u, Some (x, r) => Some (u :: x, r)
                  | _, _ => None
                  end
              | _ => None
              end
            else
              match unescape e, parse_chars s'' with
              | Some u, Some (x, r) => Some (u :: x, r)
              | _, _ => None
              end
        end
      else if (c <? 32)%N then None
      else
        match parse_chars s' with
        | Some (x, r) => Some (c :: x, r)
        | None => None
        end
  end.

(** The longest run of decimal digits, as digit values. *)
Fixpoint take_digits (s : list N) : list N * list N :=
  match s with
  | c :: s' =>
      if is_digit c
      then let (ds, r) := take_digits s' in ((c - 48)%N :: ds, r)
      else ([], s)
  | [] => ([], [])
  end.

Definition digits_value (ds : list N) : N :=
  fold_left (fun a d => a * 10 + d)%N ds 0%N.

(** [m * 10^(-k)] without the trailing zeros of its fraction. *)
Fixpoint strip_zeros (k : nat) (m : Z) : number :=
  match k with
  | O => mkNum m 0
  | S k' =>
      if (m mod 10 =? 0)%Z then strip_zeros k' (m / 10)%Z
      else mkNum m (- Z.of_nat k)
  end.

Definition make_number (m e : Z) : number :=
  if (0 <=? e)%Z then mkNum (m * 10 ^ e) 0 else strip_zeros (Z.to_nat (- e)) m.

(** The integer part: a single [0], or a run of digits that does not
    start with [0]. *)
Definition parse_int (s : list N) : option (list N * list N) :=
  match s with
  | c :: r =>
      if (c =? 48)%N then Some ([0%N], r)
      else if is_digit c then Some (take_digits s)
      else None
  | [] => None
  end.

(** An optional fraction: a point and at least one digit. *)
Definition parse_frac (s : list N) : option (list N * list N) :=
  match s with
  | c :: r =>
      if (c =? 46)%N then
        match take_digits r with
        | ([], _) => None
        | (ds, r') => Some (ds, r')
        end
      else Some ([], s)
  | [] => Some ([], s)
  end.

(** An optional exponent: [e] or [E], an optional sign, at least one
    digit. *)
Definition parse_exp (s : list N) : option (Z * list N) :=
  match s with
  | c :: r =>
      if ((c =? 101) || (c =? 69))%N then
        let '(sgn, r1) :=
          match r with
          | d :: r' =>
              if (d =? 43)%N then (1%Z, r')
              else if (d =? 45)%N then ((-1)%Z, r')
              else (1%Z, r)
          | [] => (1%Z, r)
          end in
        match take_digits r1 with
        | ([], _) => None
        | (ds, r2) => Some ((sgn * Z.of_N (digits_value ds))%Z, r2)
        end
      else Some (0%Z, s)
  | [] => Some (0%Z, s)
  end.

Definition parse_number (s : list N) : option (number * list N) :=
  let '(neg, s1) :=
    match s with
    | c :: r => if (c =? 45)%N then (true, r) else (false, s)
    | [] => (false, s)
    end in
  match parse_int s1 with
  | None => None
  | Some (ids, s2) =>
      match parse_frac s2 with
      | None => None
      | Some (fds, s3) =>
          match parse_exp s3 with
          | None => None
          | Some (e, s4) =>
              let m := Z.of_N (digits_value (ids ++ fds)) in
              Some (make_number (if neg then - m else m)%Z
                                (e - Z.of_nat (length fds))%Z, s4)
          end
      end
  end.

(** The rest of a keyword whose first letter has been read. *)
Fixpoint expect (w s : list N) : option (list N) :=
  match w, s with
  | [], _ => Some s
  | a :: w', c :: s' => if (a =? c)%N then expect w' s' else None
  | _ :: _, [] => None
  end.

(** A value, the elements of a non-empty array and the members of a
    non-empty object.  [fuel] bounds the depth of the calls; [JSON_parse]
    gives as much as any input can need ([JSON_parse_fuel] below). *)
Fixpoint parse_value (fuel : nat) (s : list N) : option (json * list N) :=
  match fuel with
  | O => None
  | S fuel' =>
      match skip_ws s with
      | [] => None
      | c :: r =>
          if (c =? 110)%N then                       (* null *)
            match expect (str "ull") r with
            | Some r' => Some (JNull, r') | None => None end
          else if (c =? 116)%N then                  (* true *)
            match expect (str "rue") r with
            | Some r' => Some (JBool true, r') | None => None end
          else if (c =? 102)%N then                  (* false *)
            match expect (str "alse") r with
            | Some r' => Some (JBool false, r') | None => None end
          else if (c =? 34)%N then                   (* a string *)
            match parse_chars r with
            | Some (x, r') => Some (JStr x, r') | None => None end
          else if (c =? 91)%N then                   (* [ *)
            match skip_ws r with
            | [] => None
            | d :: r' =>
                if (d =? 93)%N then Some (JArr [], r')
                else
                  match parse_elements fuel' r with
                  | Some (vs, r'') => Some (JArr vs, r'')
                  | None => None
                  end
            end
          else if (c =? 123)%N then                  (* { *)
            match skip_ws r with
            | [] => None
            | d :: r' =>
                if (d =? 125)%N then Some (JObj [], r')
                else
                  match parse_members fuel' r with
                  | Some (ms, r'') =>
                      Some (JObj (fold_left (fun o kv => obj_set (fst kv) (snd kv) o)
                                            ms []), r'')
                  | None => None
                  end
            end
          else
            match parse_number (c :: r) with
            | Some (n, r') => Some (JNum n, r') | None => None end
      end
  end
with parse_elements (fuel : nat) (s : list N) : option (list json * list N) :=
  match fuel with
  | O => None
  | S fuel' =>
      match parse_value fuel' s with
      | None => None
      | Some (v, r) =>
          match skip_ws r with
          | [] => None
          | d :: r' =>
              if (d =? 44)%N then
                match parse_elements fuel' r' with
                | Some (vs, r'') => Some (v :: vs, r'')
                | None => None
                end
              else if (d =? 93)%N then Some ([v], r')
              else None
          end
      end
  end
with parse_members (fuel : nat) (s : list N)
  : option (list (jsstring * json) * list N) :=
  match fuel with
  | O => None
  | S fuel' =>
      match skip_ws s with
      | [] => None
      | q :: r =>
          if negb (q =? 34)%N then None
          else
            match parse_chars r with
            | None => None
            | Some (k, r1) =>
                match skip_ws r1 with
                | [] => None
                | c :: r2 =>
                    if negb (c =? 58)%N then None
                    else
                      match parse_value fuel' r2 with
                      | None => None
                      | Some (v, r3) =>
                          match skip_ws r3 with
                          | [] => None
                          | d :: r4 =>
                              if (d =? 44)%N then
                                match parse_members fuel' r4 with
                                | Some (ms, r5) => Some ((k, v) :: ms, r5)
                                | None => None
                                end
                              else if (d =? 125)%N then Some ([(k, v)], r4)
                              else None
                          end
                      end
                end
            end
      end
  end.

(** [JSON.parse(raw)]; [None] stands for the SyntaxError it throws. *)
Definition JSON_parse (raw : jsstring) : option json :=
  match parse_value (S (2 * length raw)) raw with
  | Some (v, r) =>
      match skip_ws r with
      | [] => Some v
      | _ :: _ => None
      end
  | None => None
  end.

(* ================================================================= *)
(** ** The component's state *)

(** ["all" | "active" | "completed"] (line 30) *)
Inductive Filter := All | Active | Completed.

(** The four [useState] cells: [tasks], [text], [editingId] ([None] is
    [null]) and [filter]. *)
Record State := mkState {
  s_tasks : list Task;
  s_text : jsstring;
  s_editingId : option jsstring;
  s_filter : Filter
}.

(** A call of one of the four setters; [setTasks] is always given an
    updater function of the previous array. *)
Inductive update :=
| SetTasks (f : list Task -> list Task)
| SetText (v : jsstring)
| SetEditingId (v : option jsstring)
| SetFilter (v : Filter).

Definition apply_update (s : State) (u : update) : State :=
  match u with
  | SetTasks f => mkState (f (s_tasks s)) (s_text s) (s_editingId s) (s_filter s)
  | SetText v => mkState (s_tasks s) v (s_editingId s) (s_filter s)
  | SetEditingId v => mkState (s_tasks s) (s_text s) v (s_filter s)
  | SetFilter v => mkState (s_tasks s) (s_text s) (s_editingId s) v
  end.

(** The state of the next render: the queued updates applied in order. *)
Definition commit (s : State) (us : list update) : State :=
  fold_left apply_update us s.

(** What a handler hands back to its caller. *)
Inductive jsval :=
| VUndefined
| VData (v : json).

(** A handler reads the state of the render it was created in, queues
    updates and returns a value. *)
Definition handler := State -> list update * jsval.

(** The state after a handler has run and React has rendered again, with
    the value the handler returned. *)
Definition run (h : handler) (s : State) : State * jsval :=
  (commit s (fst (h s)), snd (h s)).

(* ================================================================= *)
(** ** Helpers and handlers (lines 59-119) *)

(** What [addTask] reads from outside: [Date.now()] in [createId],
    the text of [Math.random().toString(36)], and [Date.now()] for
    [createdAt]. *)
Record Env := mkEnv {
  clock_id : Z;
  random36 : jsstring;
  clock_createdAt : Z
}.

(** Line 59. *)
Definition createId (now : Z) (rnd : jsstring) : jsstring :=
  toString 36 now ++ str "-" ++ slice 2 7 rnd.

(** [t.id === i ? { ...t, text: trimmed } : t] *)
Definition edit_one (i trimmed : jsstring) (t : Task) : Task :=
  if str_eqb (id t) i then with_text t trimmed else t.

(** [t.id === i ? { ...t, completed: !t.completed } : t] *)
Definition toggle_one (i : jsstring) (t : Task) : Task :=
  if str_eqb (id t) i then with_toggled t else t.

Definition newTask (env : Env) (trimmed : jsstring) : Task :=
  mkTask (createId (clock_id env) (random36 env)) trimmed false
         (clock_createdAt env).

(** [if (editingId)]: neither [null] nor the empty string. *)
Definition editing (s : State) : option jsstring :=
  match s_editingId s with
  | Some i => if truthy_str i then Some i else None
  | None => None
  end.

(** Lines 61-84. *)
Definition addTask (env : Env) : handler := fun s =>
  let trimmed := trim (s_text s) in
  if negb (truthy_str trimmed) then ([], VUndefined)
  else
    match editing s with
    | Some i =>
        ([SetTasks (fun prev => map (edit_one i trimmed) prev);
          SetEditingId None;
          SetText []], VUndefined)
    | None =>
        ([SetTasks (fun prev => newTask env trimmed :: prev);
          SetText []], VUndefined)
    end.

(** Lines 86-90. *)
Definition startEdit (task : Task) : handler := fun _ =>
  ([SetEditingId (Some (id task)); SetText (text task)], VUndefined).

(** Lines 92-95. *)
Definition cancelEdit : handler := fun _ =>
  ([SetEditingId None; SetText []], VUndefined).

(** Lines 97-99. *)
Definition toggleComplete (i : jsstring) : handler := fun _ =>
  ([SetTasks (fun prev => map (toggle_one i) prev)], VUndefined).

(** Lines 101-103. *)
Definition removeTask (i : jsstring) : handler := fun _ =>
  ([SetTasks (fun prev => filter (fun t => negb (str_eqb (id t) i)) prev)],
   VUndefined).

(** Lines 105-107. *)
Definition clearCompleted : handler := fun _ =>
  ([SetTasks (fun prev => filter (fun t => negb (completed t)) prev)],
   VUndefined).

(** The callback of line 109. *)
Definition shown (f : Filter) (t : Task) : bool :=
  match f with
  | Active => negb (completed t)
  | Completed => completed t
  | All => true
  end.

(** Lines 109-113: computed during render from [tasks] and [filter]. *)
Definition filteredTasks (s : State) : list Task :=
  filter (shown (s_filter s)) (s_tasks s).

(** The [onChange] of the input (line 133) and the filter buttons
    (lines 162, 169, 176). *)
Definition changeText (v : jsstring) : handler := fun _ =>
  ([SetText v], VUndefined).

Definition chooseFilter (f : Filter) : handler := fun _ =>
  ([SetFilter f], VUndefined).

(* ================================================================= *)
(** ** Persistence (lines 14-25 and 43-51) *)

(** What the component does to the outside world, newest first. *)
Inductive io :=
| IoSetItem (value : jsstring)       (* localStorage.setItem(STORAGE_KEY, value) *)
| IoConsoleError (msg : jsstring).   (* console.error(msg, e) *)

(** The running component, the slot [todo_app_tasks_v1] of
    [localStorage], and the trace. *)
Record World := mkWorld {
  state : State;
  slot : option jsstring;
  trace : list io
}.

(** The effect of lines 43-51.  [write_ok] tells whether [setItem]
    stores the value or throws (storage unavailable, quota exceeded). *)
Definition persist (write_ok : bool) (w : World) : World :=
  let value := JSON_stringify (s_tasks (state w)) in
  if write_ok
  then mkWorld (state w) (Some value) (IoSetItem value :: trace w)
  else mkWorld (state w) (slot w)
         (IoConsoleError (str "Failed to save tasks to localStorage")
          :: IoSetItem value :: trace w).

(** The user's actions and the handler each one reaches. *)
Inductive event :=
| Submit (env : Env)
| ChangeText (v : jsstring)
| StartEdit (task : Task)
| CancelEdit
| Toggle (i : jsstring)
| Remove (i : jsstring)
| ClearCompleted
| ChooseFilter (f : Filter).

Definition handle (ev : event) : handler :=
  match ev with
  | Submit env => addTask env
  | ChangeText v => changeText v
  | StartEdit task => startEdit task
  | CancelEdit => cancelEdit
  | Toggle i => toggleComplete i
  | Remove i => removeTask i
  | ClearCompleted => clearCompleted
  | ChooseFilter f => chooseFilter f
  end.

(** [tasks] is a new array after the render exactly when [setTasks] was
    called: every updater builds one ([map], [filter], a spread). *)
Definition sets_tasks (us : list update) : bool :=
  existsb (fun u => match u with SetTasks _ => true | _ => false end) us.

(** One action: the handler runs, React renders the new state, and the
    effect with dependency [[tasks]] runs if [tasks] is a new array. *)
Definition dispatch (write_ok : bool) (ev : event) (w : World) : World * jsval :=
  let (us, ret) := handle ev (state w) in
  let w' := mkWorld (commit (state w) us) (slot w) (trace w) in
  (if sets_tasks us then persist write_ok w' else w', ret).

(** A run of actions, every write going through. *)
Definition play (evs : list event) (w : World) : World :=
  fold_left (fun w ev => fst (dispatch true ev w)) evs w.

(** [localStorage.getItem(STORAGE_KEY)]: it throws where storage is
    denied, and gives [null] for an empty slot. *)
Inductive read := GetItemThrows | GetItem (raw : option jsstring).

(** The initializer of lines 17-25: the value [tasks] starts with, and
    what was logged. *)
Definition initial_tasks (r : read) : json * list io :=
  match r with
  | GetItemThrows =>
      (JArr [], [IoConsoleError (str "Failed to read tasks from localStorage")])
  | GetItem None => (JArr [], [])
  | GetItem (Some raw) =>
      if truthy_str raw then
        match JSON_parse raw with
        | Some v => (v, [])
        | None =>
            (JArr [],
             [IoConsoleError (str "Failed to read tasks from localStorage")])
        end
      else (JArr [], [])
  end.

(** Truthiness of a value. *)
Definition truthy (v : json) : bool :=
  match v with
  | JNull => false
  | JBool b => b
  | JNum n => negb (mant n =? 0)%Z
  | JStr s => truthy_str s
  | JArr _ | JObj _ => true
  end.

(** [t.completed] on any value: [None] is the TypeError of reading a
    property of [null], [Some None] is [undefined]. *)
Definition get_completed (t : json) : option (option json) :=
  match t with
  | JNull => None
  | JObj l => Some (obj_get (str "completed") l)
  | _ => Some None
  end.

(** The callback of line 109 on any value. *)
Definition shown_raw (f : Filter) (t : json) : option bool :=
  match f with
  | All => Some true
  | Active =>
      match get_completed t with
      | None => None
      | Some None => Some true
      | Some (Some c) => Some (negb (truthy c))
      end
  | Completed =>
      match get_completed t with
      | None => None
      | Some None => Some false
      | Some (Some c) => Some (truthy c)
      end
  end.

Fixpoint filter_raw (f : Filter) (l : list json) : option (list json) :=
  match l with
  | [] => Some []
  | t :: l' =>
      match shown_raw f t, filter_raw f l' with
      | Some b, Some r => Some (if b then t :: r else r)
      | _, _ => None
      end
  end.

(** Line 109 on whatever [tasks] holds: [None] is the TypeError thrown
    when [tasks] has no [filter] method or an element is [null]. *)
Definition filteredTasks_raw (f : Filter) (tasks : json) : option (list json) :=
  match tasks with
  | JArr l => filter_raw f l
  | _ => None
  end.

(* ================================================================= *)
(** ** The wording of the specification *)

(** [l1] is [l2] with some elements left out: same order. *)
Inductive subseq {A : Type} : list A -> list A -> Prop :=
| subseq_nil : subseq [] []
| subseq_skip x l1 l2 : subseq l1 l2 -> subseq l1 (x :: l2)
| subseq_keep x l1 l2 : subseq l1 l2 -> subseq (x :: l1) (x :: l2).

(** Section 4.1 on [add]: the collection grows by one, the new task comes
    first, is not completed, carries the creation time, an id no stored
    task has and the trimmed text, and is handed back to the caller. *)
Definition add_contract (env : Env) (s : State) : Prop :=
  let s1 := fst (run (addTask env) s) in
  exists t,
    length (s_tasks s1) = S (length (s_tasks s))
    /\ hd_error (s_tasks s1) = Some t
    /\ completed t = false
    /\ createdAt t = clock_createdAt env
    /\ ~ In (id t) (map id (s_tasks s))
    /\ text t = trim (s_text s)
    /\ snd (run (addTask env) s) = VData (task_val t).

(** The calls section 7 wants rejected: [add] or [edit] with text that
    trims to nothing, and [edit], [toggleComplete] or [delete] with an id
    no stored task has. *)
Inductive rejected : handler -> State -> Prop :=
| rejected_blank env s :
    trim (s_text s) = [] -> rejected (addTask env) s
| rejected_edit env i s :
    editing s = Some i -> ~ In i (map id (s_tasks s)) ->
    rejected (addTask env) s
| rejected_toggle i s :
    ~ In i (map id (s_tasks s)) -> rejected (toggleComplete i) s
| rejected_remove i s :
    ~ In i (map id (s_tasks s)) -> rejected (removeTask i) s.

(** Section 7 on a rejected call of [h] in state [s]: the collection stays
    as it is, and the caller is told, so what it gets differs from what an
    accepted call of [h] (in state [s_ok]) gives. *)
Definition rejection_contract (h : handler) (s s_ok : State) : Prop :=
  s_tasks (fst (run h s)) = s_tasks s
  /\ snd (run h s) <> snd (run h s_ok).

(** Section 4.1 on [clearCompleted]: what stays is what was not completed,
    the count of removed tasks is returned, and a second call returns 0. *)
Definition clear_contract (s : State) : Prop :=
  let s1 := fst (run clearCompleted s) in
  (forall t, In t (s_tasks s1) <-> In t (s_tasks s) /\ completed t = false)
  /\ snd (run clearCompleted s)
     = VData (JNum (int_num
         (Z.of_nat (length (s_tasks s) - length (s_tasks s1)))))
  /\ snd (run clearCompleted s1) = VData (JNum (int_num 0)).

(** Section 4.1 on [edit], for a state in which task [x] is being edited:
    same length, and at every position the task is the old one, with the
    new text where its id is the one of [x]. *)
Definition edit_contract (env : Env) (s : State) (x : Task) : Prop :=
  let s1 := fst (run (addTask env) s) in
  length (s_tasks s1) = length (s_tasks s)
  /\ forall k t, nth_error (s_tasks s) k = Some t ->
       nth_error (s_tasks s1) k
       = Some (if str_eqb (id t) (id x)
               then with_text t (trim (s_text s)) else t).

(** Section 8 on [delete]: one task less, the others stay, and a second
    call changes nothing and is told apart from the first by its caller. *)
Definition delete_contract (i : jsstring) (s : State) : Prop :=
  let s1 := fst (run (removeTask i) s) in
  length (s_tasks s) = S (length (s_tasks s1))
  /\ (forall t, In t (s_tasks s1) <-> In t (s_tasks s) /\ id t <> i)
  /\ s_tasks (fst (run (removeTask i) s1)) = s_tasks s1
  /\ snd (run (removeTask i) s1) <> snd (run (removeTask i) s).

(** The view under filter [f], whatever filter the state holds. *)
Definition list_view (f : Filter) (s : State) : list Task :=
  filteredTasks (mkState (s_tasks s) (s_text s) (s_editingId s) f).

(** Timestamps [Date] can hold: at most 8.64e15 milliseconds either side
    of the epoch, all of them integers a double holds exactly. *)
Definition time_value (z : Z) : Prop := (Z.abs z <= 8640000000000000)%Z.

(** Sample data of section 8. *)
Definition buy_milk : Task :=
  mkTask (str "loyw3v28-k3x9q") (str "Buy milk") false 1700000000000.
Definition walk_dog : Task :=
  mkTask (str "loyw3v29-7fj2m") (str "Walk dog") false 1700000000001.
Definition empty_state : State := mkState [] [] None All.
Definition sample_env : Env :=
  mkEnv 1700000000000 (str "0.k3x9qzzz") 1700000000000.
Definition later_env : Env :=
  mkEnv 1700000000001 (str "0.7fj2m41c") 1700000000001.

(* ================================================================= *)
(** ** The rest of the component *)

(** Lines 116-119: both tests are made, one after the other. *)
Definition onInputKeyDown (key : jsstring) (env : Env) : handler := fun s =>
  ((if str_eqb key (str "Enter") then fst (addTask env s) else [])
   ++ (if str_eqb key (str "Escape") then fst (cancelEdit s) else []),
   VUndefined).

(** Handlers run one after the other, with a render in between. *)
Definition run_all (hs : list handler) (s : State) : State :=
  fold_left (fun s h => fst (run h s)) hs s.

(** [disabled={!text.trim()}] on the submit button (line 142). *)
Definition submitDisabled (s : State) : bool :=
  negb (truthy_str (trim (s_text s))).

(** [{editingId ? "Save" : "Add"}] (line 144). *)
Definition submitLabel (s : State) : jsstring :=
  match editing s with
  | Some _ => str "Save"
  | None => str "Add"
  end.

(** [{tasks.length} total] (line 186). *)
Definition totalCount (s : State) : nat := length (s_tasks s).

(** [filteredTasks.length === 0], the test for the line "No tasks to
    show." (line 197). *)
Definition emptyShown (s : State) : bool :=
  (length (filteredTasks s) =? 0)%nat.

(** A value that is an array of task objects as [addTask] builds them:
    the four properties, in that order, with those types. *)
Definition as_built_task (v : json) : option Task :=
  match v with
  | JObj [(k1, JStr i); (k2, JStr x); (k3, JBool c); (k4, JNum (mkNum z 0))] =>
      if str_eqb k1 (str "id") && str_eqb k2 (str "text")
         && str_eqb k3 (str "completed") && str_eqb k4 (str "createdAt")
      then Some (mkTask i x c z) else None
  | _ => None
  end.

Fixpoint as_built_list (l : list json) : option (list Task) :=
  match l with
  | [] => Some []
  | v :: l' =>
      match as_built_task v, as_built_list l' with
      | Some t, Some ts => Some (t :: ts)
      | _, _ => None
      end
  end.

Definition as_built_tasks (v : json) : option (list Task) :=
  match v with
  | JArr l => as_built_list l
  | _ => None
  end.

(** The first render and the effects after it: the initializer of lines
    17-25 reads the slot ([readable] tells whether [getItem] answers or
    throws), the other cells start as at lines 28-30, and the effect of
    lines 43-51 saves what was read.  [None]: what was read is not an
    array of task objects as [addTask] builds them, and the component is
    outside of what [State] describes. *)
Definition mount (readable : bool) (stored : option jsstring)
    (write_ok : bool) : option World :=
  let (v, log) := initial_tasks (if readable then GetItem stored
                                 else GetItemThrows) in
  match as_built_tasks v with
  | Some l => Some (persist write_ok (mkWorld (mkState l [] None All) stored log))
  | None => None
  end.

(** The slot holds the serialized collection. *)
Definition synced (w : World) : Prop :=
  slot w = Some (JSON_stringify (s_tasks (state w))).

(** Every stored text is non-empty and has no white space at either
    end. *)
Definition trimmed_texts (l : list Task) : Prop :=
  Forall (fun t => text t <> [] /\ trim (text t) = text t) l.

(** The id a [Submit] would give to a new task is not in use. *)
Definition fresh_id (ev : event) (s : State) : Prop :=
  match ev with
  | Submit env => ~ In (createId (clock_id env) (random36 env))
                       (map id (s_tasks s))
  | _ => True
  end.

(* ================================================================= *)
(** * Properties *)

(** ** Strings and lists *)

Lemma str_eqb_eq a b : str_eqb a b = true <-> a = b.
Proof.
  revert b; induction a as [|x a IH]; intros [|y b]; simpl;
    try (split; [discriminate | congruence]); try tauto.
  rewrite andb_true_iff, N.eqb_eq, IH. split.
  - intros [-> ->]; reflexivity.
  - intros H; injection H as -> ->; auto.
Qed.

Lemma str_eqb_refl a : str_eqb a a = true.
Proof. now apply str_eqb_eq. Qed.

Lemma str_eqb_neq a b : str_eqb a b = false <-> a <> b.
Proof.
  rewrite <- str_eqb_eq. destruct (str_eqb a b); split; congruence.
Qed.

Lemma truthy_str_false s : truthy_str s = false <-> s = [].
Proof. destruct s; simpl; split; congruence. Qed.

Lemma truthy_str_true s : truthy_str s = true <-> s <> [].
Proof. destruct s; simpl; split; congruence. Qed.

Lemma subseq_refl {A} (l : list A) : subseq l l.
Proof. induction l; [apply subseq_nil | apply subseq_keep; assumption]. Qed.

Lemma subseq_filter {A} (p : A -> bool) (l : list A) : subseq (filter p l) l.
Proof.
  induction l as [|x l IH]; simpl; [apply subseq_nil|].
  destruct (p x); [apply subseq_keep | apply subseq_skip]; exact IH.
Qed.

Lemma subseq_length {A} (l1 l2 : list A) :
  subseq l1 l2 -> length l1 <= length l2.
Proof. induction 1; simpl; lia. Qed.

(** A filter that keeps everything changes nothing. *)
Lemma filter_all {A} (p : A -> bool) (l : list A) :
  (forall x, In x l -> p x = true) -> filter p l = l.
Proof.
  induction l as [|x l IH]; simpl; intros H; [reflexivity|].
  rewrite (H x (or_introl eq_refl)). f_equal. apply IH. auto.
Qed.

Lemma filter_idem {A} (p : A -> bool) (l : list A) :
  filter p (filter p l) = filter p l.
Proof.
  apply filter_all. intros x Hx. apply filter_In in Hx. tauto.
Qed.

Lemma nth_error_map_some {A B} (f : A -> B) l k x :
  nth_error l k = Some x -> nth_error (map f l) k = Some (f x).
Proof. intros H. rewrite nth_error_map, H. reflexivity. Qed.

(** ** Every handler returns [undefined] *)

Lemma handle_returns_undefined ev s : snd (run (handle ev) s) = VUndefined.
Proof.
  destruct ev; simpl; try reflexivity.
  unfold addTask.
  destruct (negb (truthy_str (trim (s_text s)))); [reflexivity|].
  destruct (editing s); reflexivity.
Qed.

Lemma addTask_returns_undefined env s : snd (run (addTask env) s) = VUndefined.
Proof. exact (handle_returns_undefined (Submit env) s). Qed.

(** ** The three paths of [addTask] *)

Lemma addTask_blank env s :
  trim (s_text s) = [] -> fst (run (addTask env) s) = s.
Proof.
  intros H. unfold run, addTask. rewrite H. simpl. reflexivity.
Qed.

Lemma addTask_edit env s i :
  trim (s_text s) <> [] -> editing s = Some i ->
  fst (run (addTask env) s)
  = mkState (map (edit_one i (trim (s_text s))) (s_tasks s)) [] None (s_filter s).
Proof.
  intros Ht He. unfold run, addTask.
  apply truthy_str_true in Ht. rewrite Ht, He. reflexivity.
Qed.

Lemma addTask_new env s :
  trim (s_text s) <> [] -> editing s = None ->
  fst (run (addTask env) s)
  = mkState (newTask env (trim (s_text s)) :: s_tasks s) []
            (s_editingId s) (s_filter s).
Proof.
  intros Ht He. unfold run, addTask.
  apply truthy_str_true in Ht. rewrite Ht, He. reflexivity.
Qed.

Lemma editing_truthy s i : editing s = Some i -> s_editingId s = Some i /\ i <> [].
Proof.
  unfold editing. destruct (s_editingId s) as [j|]; [|discriminate].
  destruct j; simpl; [discriminate|]. intros H; injection H as <-.
  split; congruence.
Qed.

(** An id no task has: the two maps leave the list as it is. *)
Lemma map_edit_absent i x l :
  ~ In i (map id l) -> map (edit_one i x) l = l.
Proof.
  induction l as [|t l IH]; simpl; intros H; [reflexivity|].
  unfold edit_one at 1. destruct (str_eqb (id t) i) eqn:E.
  - apply str_eqb_eq in E. tauto.
  - f_equal. apply IH. tauto.
Qed.

Lemma map_toggle_absent i l :
  ~ In i (map id l) -> map (toggle_one i) l = l.
Proof.
  induction l as [|t l IH]; simpl; intros H; [reflexivity|].
  unfold toggle_one at 1. destruct (str_eqb (id t) i) eqn:E.
  - apply str_eqb_eq in E. tauto.
  - f_equal. apply IH. tauto.
Qed.

Lemma filter_remove_absent i l :
  ~ In i (map id l) -> filter (fun t => negb (str_eqb (id t) i)) l = l.
Proof.
  intros H. apply filter_all. intros t Ht.
  apply negb_true_iff, str_eqb_neq. intros <-. apply H. now apply in_map.
Qed.

(* ================================================================= *)
(** ** addTask, adding (lines 75-83) *)

(** C1, as the code has it: when no edit is in progress and the input
    does not trim to nothing, [addTask] puts one new task in front of the
    collection, which grows by exactly one; the task is not completed,
    carries the clock reading as [createdAt], the trimmed input as text and
    the id [createId] built, which keeps the ids distinct whenever no
    stored task carries it already.  The handler returns [undefined]. *)
Theorem addTask_prepends env s :
  editing s = None -> trim (s_text s) <> [] ->
  let s1 := fst (run (addTask env) s) in
  let t := newTask env (trim (s_text s)) in
  s_tasks s1 = t :: s_tasks s
  /\ length (s_tasks s1) = S (length (s_tasks s))
  /\ completed t = false
  /\ createdAt t = clock_createdAt env
  /\ text t = trim (s_text s)
  /\ id t = createId (clock_id env) (random36 env)
  /\ (~ In (id t) (map id (s_tasks s)) ->
      NoDup (map id (s_tasks s)) -> NoDup (map id (s_tasks s1)))
  /\ snd (run (addTask env) s) = VUndefined.
Proof.
  intros He Ht. cbv zeta. rewrite (addTask_new env s Ht He). simpl.
  repeat split; try reflexivity.
  - intros Hfresh Hnd. constructor; assumption.
  - apply addTask_returns_undefined.
Qed.

Lemma addTask_prepends_witness :
  let s := mkState [walk_dog] (str "  Buy milk ") None Active in
  s_tasks (fst (run (addTask sample_env) s)) = [buy_milk; walk_dog]
  /\ snd (run (addTask sample_env) s) = VUndefined.
Proof.
  intros s.
  assert (He : editing s = None) by reflexivity.
  assert (Ht : trim (s_text s) <> []) by (vm_compute; discriminate).
  destruct (addTask_prepends sample_env s He Ht)
    as (H1 & _ & _ & _ & _ & _ & _ & H2).
  split; [rewrite H1; vm_compute; reflexivity | exact H2].
Defined.

(** C1 as the specification states it fails: nothing is returned, and
    the id built from the clock and five random digits can be one that a
    stored task already has. *)
Lemma add_contract_fails :
  let s := mkState [buy_milk] (str "Walk dog") None All in
  trim (s_text s) <> []
  /\ editing s = None
  /\ In (id (newTask sample_env (trim (s_text s)))) (map id (s_tasks s))
  /\ ~ add_contract sample_env s.
Proof.
  intros s. split; [vm_compute; discriminate|].
  split; [reflexivity|]. split; [vm_compute; auto|].
  intros (t & _ & _ & _ & _ & _ & _ & Hret).
  rewrite addTask_returns_undefined in Hret. discriminate.
Qed.

(* ================================================================= *)
(** ** Calls that do nothing *)

(** C2, as the code has it: [addTask] on input that trims to nothing,
    [addTask] while [editingId] holds a non-empty id that no task has,
    and [toggleComplete] or [removeTask] on an id that no task has, leave
    the collection as it was; the handler returns [undefined], which is
    also what every handler returns when it does change the collection, so
    no error reaches the caller. *)
Theorem rejected_call_changes_nothing h s :
  rejected h s ->
  s_tasks (fst (run h s)) = s_tasks s
  /\ snd (run h s) = VUndefined
  /\ (forall ev s', snd (run (handle ev) s') = VUndefined).
Proof.
  intros H. split; [|split; [|exact handle_returns_undefined]].
  - destruct H as [env s Hb | env i s He Hi | i s Hi | i s Hi].
    + now rewrite addTask_blank.
    + destruct (list_eq_dec N.eq_dec (trim (s_text s)) []) as [Hb|Hb].
      * now rewrite addTask_blank.
      * rewrite (addTask_edit env s i Hb He). simpl.
        now apply map_edit_absent.
    + simpl. now apply map_toggle_absent.
    + simpl. now apply filter_remove_absent.
  - destruct H.
    + apply addTask_returns_undefined.
    + apply addTask_returns_undefined.
    + reflexivity.
    + reflexivity.
Qed.

Lemma rejected_call_changes_nothing_witness :
  let s := mkState [buy_milk] (str "Buy oat milk") (Some (str "gone")) All in
  s_tasks (fst (run (addTask sample_env) s)) = [buy_milk]
  /\ snd (run (addTask sample_env) s) = VUndefined.
Proof.
  intros s.
  assert (Hr : rejected (addTask sample_env) s).
  { apply rejected_edit with (i := str "gone"); [reflexivity|].
    vm_compute. intros [H|[]]. discriminate H. }
  destruct (rejected_call_changes_nothing _ _ Hr) as (H1 & H2 & _).
  split; [exact H1 | exact H2].
Defined.

(** C2 as the specification states it fails: a blank [add] gives its
    caller exactly what an accepted [add] gives. *)
Lemma rejection_contract_fails :
  let s := mkState [] (str "   ") None All in
  let s_ok := mkState [] (str "Buy milk") None All in
  rejected (addTask sample_env) s
  /\ s_tasks (fst (run (addTask sample_env) s_ok)) <> s_tasks s_ok
  /\ ~ rejection_contract (addTask sample_env) s s_ok.
Proof.
  intros s s_ok. split; [apply rejected_blank; reflexivity|].
  split; [vm_compute; discriminate|].
  intros [_ H]. apply H.
  now rewrite !addTask_returns_undefined.
Qed.

(* ================================================================= *)
(** ** clearCompleted (lines 105-107) *)

Lemma length_filter_completed (l : list Task) :
  length l
  = length (filter (fun t => negb (completed t)) l)
    + length (filter completed l).
Proof.
  induction l as [|t l IH]; simpl; [reflexivity|].
  destruct (completed t); simpl; lia.
Qed.

(** C3, as the code has it: [clearCompleted] keeps, in their order, the
    tasks that are not completed and only those; the collection shrinks by
    the number of completed tasks; a second call removes nothing; the
    other state cells are untouched; and the handler returns [undefined]
    both times, not a count. *)
Theorem clearCompleted_clears s :
  let s1 := fst (run clearCompleted s) in
  (forall t, In t (s_tasks s1) <-> In t (s_tasks s) /\ completed t = false)
  /\ subseq (s_tasks s1) (s_tasks s)
  /\ length (s_tasks s)
     = length (s_tasks s1) + length (filter completed (s_tasks s))
  /\ fst (run clearCompleted s1) = s1
  /\ (s_text s1, s_editingId s1, s_filter s1)
     = (s_text s, s_editingId s, s_filter s)
  /\ snd (run clearCompleted s) = VUndefined
  /\ snd (run clearCompleted s1) = VUndefined.
Proof.
  simpl. split; [|split; [|split; [|split; [|repeat split]]]].
  - intros t. rewrite filter_In, negb_true_iff. tauto.
  - apply subseq_filter.
  - apply length_filter_completed.
  - unfold run. simpl. now rewrite filter_idem.
Qed.

(** C3 as the specification states it fails: no count comes back. *)
Lemma clear_contract_fails :
  ~ clear_contract (mkState [walk_dog; with_toggled buy_milk] [] None All).
Proof.
  intros (_ & H & _). discriminate H.
Qed.

(* ================================================================= *)
(** ** addTask, editing (lines 66-73) *)

(** Where ids are distinct, a stored task is known by its id. *)
Lemma nodup_id_inj l t x :
  NoDup (map id l) -> In t l -> In x l -> id t = id x -> t = x.
Proof.
  induction l as [|a l IH]; simpl; intros Hnd Ht Hx E; [contradiction|].
  inversion Hnd as [|b m Hnotin Hnd']; subst.
  destruct Ht as [->|Ht], Hx as [->|Hx].
  - reflexivity.
  - exfalso. apply Hnotin. rewrite E. now apply in_map.
  - exfalso. apply Hnotin. rewrite <- E. now apply in_map.
  - now apply IH.
Qed.

(** C7, as the code has it: the editing branch runs when [editingId] is
    a non-empty string.  For a stored task [x] with such an id and input
    that does not trim to nothing, the collection keeps its length, every
    position keeps its task with the same [id], [completed] and
    [createdAt], and the text changes exactly where the id is the one of
    [x]; [x] itself is found with the trimmed input as its text; where
    ids are distinct every other task is found as it was; the filter is
    untouched. *)
Theorem addTask_edits env s x :
  In x (s_tasks s) -> editing s = Some (id x) -> trim (s_text s) <> [] ->
  let s1 := fst (run (addTask env) s) in
  length (s_tasks s1) = length (s_tasks s)
  /\ (forall k t, nth_error (s_tasks s) k = Some t ->
        exists t', nth_error (s_tasks s1) k = Some t'
          /\ id t' = id t
          /\ completed t' = completed t
          /\ createdAt t' = createdAt t
          /\ text t' = if str_eqb (id t) (id x)
                       then trim (s_text s) else text t)
  /\ In (with_text x (trim (s_text s))) (s_tasks s1)
  /\ (NoDup (map id (s_tasks s)) ->
      forall t, In t (s_tasks s) -> t <> x -> In t (s_tasks s1))
  /\ s_filter s1 = s_filter s.
Proof.
  intros Hx He Ht. cbv zeta. rewrite (addTask_edit env s (id x) Ht He). simpl.
  split; [apply length_map|]. split; [|split; [|split; [|reflexivity]]].
  - intros k t Hk. exists (edit_one (id x) (trim (s_text s)) t).
    split; [now apply nth_error_map_some|].
    unfold edit_one. destruct (str_eqb (id t) (id x)); simpl; auto.
  - apply in_map_iff. exists x. split; [|exact Hx].
    unfold edit_one. now rewrite str_eqb_refl.
  - intros Hnd t Hin Hne. apply in_map_iff. exists t. split; [|exact Hin].
    unfold edit_one. destruct (str_eqb (id t) (id x)) eqn:E; [|reflexivity].
    apply str_eqb_eq in E. exfalso. apply Hne.
    now apply (nodup_id_inj (s_tasks s)).
Qed.

Lemma addTask_edits_witness :
  let s := mkState [walk_dog; buy_milk] (str " Buy oat milk ")
                   (Some (id buy_milk)) Active in
  trim (s_text s) = str "Buy oat milk"
  /\ length (s_tasks (fst (run (addTask sample_env) s))) = 2
  /\ In (with_text buy_milk (trim (s_text s)))
        (s_tasks (fst (run (addTask sample_env) s))).
Proof.
  intros s.
  assert (Hx : In buy_milk (s_tasks s)) by (simpl; auto).
  assert (He : editing s = Some (id buy_milk)) by reflexivity.
  assert (Ht : trim (s_text s) <> []) by (vm_compute; discriminate).
  destruct (addTask_edits sample_env s buy_milk Hx He Ht) as (H1 & _ & H2 & _).
  split; [vm_compute; reflexivity|]. split; [exact H1 | exact H2].
Defined.

(** C7 as the specification states it fails for a stored task whose id
    is the empty string: [if (editingId)] takes it for no edit at all, and
    a new task is added instead. *)
Lemma edit_contract_fails :
  let x := mkTask [] (str "Buy milk") false 1700000000000 in
  let s := fst (run (changeText (str "Buy oat milk"))
                 (fst (run (startEdit x) (mkState [x] [] None All)))) in
  In x (s_tasks s)
  /\ s_editingId s = Some (id x)
  /\ trim (s_text s) <> []
  /\ ~ edit_contract sample_env s x.
Proof.
  intros x s. split; [simpl; auto|]. split; [reflexivity|].
  split; [vm_compute; discriminate|].
  intros [H _]. vm_compute in H. discriminate H.
Qed.

(* ================================================================= *)
(** ** toggleComplete (lines 97-99) *)

Lemma toggle_one_twice i t : toggle_one i (toggle_one i t) = t.
Proof.
  unfold toggle_one. destruct (str_eqb (id t) i) eqn:E; simpl; rewrite E.
  - destruct t as [a b c d]. unfold with_toggled. simpl.
    now rewrite negb_involutive.
  - reflexivity.
Qed.

(** C8: for a stored task [x], [toggleComplete (id x)] keeps the length
    of the collection and, position by position, the [id], [text] and
    [createdAt] of every task; [completed] is negated exactly where the id
    is the one of [x], so [x] is found flipped; where ids are distinct
    every other task is found as it was; the other state cells are
    untouched; and a second call gives back the state it started from. *)
Theorem toggleComplete_flips s x :
  In x (s_tasks s) ->
  let s1 := fst (run (toggleComplete (id x)) s) in
  length (s_tasks s1) = length (s_tasks s)
  /\ (forall k t, nth_error (s_tasks s) k = Some t ->
        exists t', nth_error (s_tasks s1) k = Some t'
          /\ id t' = id t
          /\ text t' = text t
          /\ createdAt t' = createdAt t
          /\ completed t' = if str_eqb (id t) (id x)
                            then negb (completed t) else completed t)
  /\ In (with_toggled x) (s_tasks s1)
  /\ (NoDup (map id (s_tasks s)) ->
      forall t, In t (s_tasks s) -> t <> x -> In t (s_tasks s1))
  /\ (s_text s1, s_editingId s1, s_filter s1)
     = (s_text s, s_editingId s, s_filter s)
  /\ fst (run (toggleComplete (id x)) s1) = s.
Proof.
  intros Hx. simpl.
  split; [apply length_map|].
  split; [|split; [|split; [|split; [reflexivity|]]]].
  - intros k t Hk. exists (toggle_one (id x) t).
    split; [now apply nth_error_map_some|].
    unfold toggle_one. destruct (str_eqb (id t) (id x)); simpl; auto.
  - apply in_map_iff. exists x. split; [|exact Hx].
    unfold toggle_one. now rewrite str_eqb_refl.
  - intros Hnd t Hin Hne. apply in_map_iff. exists t. split; [|exact Hin].
    unfold toggle_one. destruct (str_eqb (id t) (id x)) eqn:E; [|reflexivity].
    apply str_eqb_eq in E. exfalso. apply Hne.
    now apply (nodup_id_inj (s_tasks s)).
  - unfold run. simpl. rewrite map_map.
    destruct s as [l a b c]. simpl. f_equal.
    rewrite <- (map_id l) at 2. apply map_ext. apply toggle_one_twice.
Qed.

Lemma toggleComplete_flips_witness :
  let s := mkState [walk_dog; buy_milk] [] None All in
  s_tasks (fst (run (toggleComplete (id buy_milk)) s))
  = [walk_dog; with_toggled buy_milk]
  /\ fst (run (toggleComplete (id buy_milk))
            (fst (run (toggleComplete (id buy_milk)) s))) = s.
Proof.
  intros s.
  assert (Hx : In buy_milk (s_tasks s)) by (simpl; auto).
  destruct (toggleComplete_flips s buy_milk Hx) as (_ & _ & _ & _ & _ & H).
  split; [vm_compute; reflexivity | exact H].
Defined.

(* ================================================================= *)
(** ** removeTask (lines 101-103) *)

Lemma remove_length_nodup i (l : list Task) :
  In i (map id l) -> NoDup (map id l) ->
  length l = S (length (filter (fun t => negb (str_eqb (id t) i)) l)).
Proof.
  induction l as [|t l IH]; simpl; intros Hi Hnd; [contradiction|].
  inversion Hnd as [|a m Hnotin Hnd']; subst.
  destruct (str_eqb (id t) i) eqn:E; simpl.
  - apply str_eqb_eq in E. subst i.
    now rewrite filter_remove_absent.
  - apply str_eqb_neq in E. destruct Hi as [Hi|Hi]; [contradiction|].
    now rewrite <- IH.
Qed.

Lemma remove_length_lt i (l : list Task) :
  In i (map id l) ->
  length (filter (fun t => negb (str_eqb (id t) i)) l) < length l.
Proof.
  induction l as [|t l IH]; simpl; intros Hi; [contradiction|].
  destruct (str_eqb (id t) i) eqn:E; simpl.
  - pose proof (subseq_length _ _
      (subseq_filter (fun t => negb (str_eqb (id t) i)) l)). lia.
  - apply str_eqb_neq in E. destruct Hi as [Hi|Hi]; [contradiction|].
    apply IH in Hi. lia.
Qed.

(** C9, as the code has it: for an id that some stored task has,
    [removeTask] keeps, in their order, the tasks with another id and only
    those, so the collection gets shorter, by exactly one when the ids are
    distinct; a second call changes nothing; and both calls return
    [undefined], the second no differently from the first. *)
Theorem removeTask_removes i s :
  In i (map id (s_tasks s)) ->
  let s1 := fst (run (removeTask i) s) in
  (forall t, In t (s_tasks s1) <-> In t (s_tasks s) /\ id t <> i)
  /\ subseq (s_tasks s1) (s_tasks s)
  /\ length (s_tasks s1) < length (s_tasks s)
  /\ (NoDup (map id (s_tasks s)) ->
      length (s_tasks s) = S (length (s_tasks s1)))
  /\ fst (run (removeTask i) s1) = s1
  /\ snd (run (removeTask i) s) = VUndefined
  /\ snd (run (removeTask i) s1) = VUndefined.
Proof.
  intros Hi. simpl.
  split; [|split; [|split; [|split; [|repeat split]]]].
  - intros t. rewrite filter_In, negb_true_iff, str_eqb_neq. tauto.
  - apply subseq_filter.
  - now apply remove_length_lt.
  - intros Hnd. now apply remove_length_nodup.
  - unfold run. simpl. now rewrite filter_idem.
Qed.

Lemma removeTask_removes_witness :
  let s := mkState [walk_dog; buy_milk] [] None All in
  s_tasks (fst (run (removeTask (id buy_milk)) s)) = [walk_dog]
  /\ snd (run (removeTask (id buy_milk)) s) = VUndefined.
Proof.
  intros s.
  assert (Hi : In (id buy_milk) (map id (s_tasks s))) by (simpl; auto).
  destruct (removeTask_removes (id buy_milk) s Hi)
    as (_ & _ & _ & _ & _ & H & _).
  split; [vm_compute; reflexivity | exact H].
Defined.

(** C9 as the specification states it fails: the second call, which finds
    nothing to remove, gives its caller what the first one gave. *)
Lemma delete_contract_fails :
  let s := mkState [walk_dog; buy_milk] [] None All in
  In (id buy_milk) (map id (s_tasks s))
  /\ ~ delete_contract (id buy_milk) s.
Proof.
  intros s. split; [simpl; auto|].
  intros (_ & _ & _ & H). apply H. reflexivity.
Qed.

(** With two tasks under one id, both go. *)
Example removeTask_shared_id :
  let s := mkState [with_text buy_milk (str "Buy bread"); walk_dog; buy_milk]
                   [] None All in
  s_tasks (fst (run (removeTask (id buy_milk)) s)) = [walk_dog].
Proof. vm_compute. reflexivity. Qed.

(* ================================================================= *)
(** ** filteredTasks (lines 109-113) *)

(** C10: under [All] the view is the collection; under [Active] it holds
    the tasks that are not completed and only those, under [Completed] the
    completed ones and only those, each in the stored order; a task is in
    the full view exactly when it is in one of the two others, and never in
    both; and the view is a function of [tasks] and [filter] alone. *)
Theorem filteredTasks_partition s :
  list_view All s = s_tasks s
  /\ (forall t, In t (list_view Active s)
                <-> In t (s_tasks s) /\ completed t = false)
  /\ (forall t, In t (list_view Completed s)
                <-> In t (s_tasks s) /\ completed t = true)
  /\ subseq (list_view Active s) (s_tasks s)
  /\ subseq (list_view Completed s) (s_tasks s)
  /\ (forall t, In t (list_view All s)
                <-> In t (list_view Active s) \/ In t (list_view Completed s))
  /\ (forall t, ~ (In t (list_view Active s) /\ In t (list_view Completed s)))
  /\ (forall s', s_tasks s' = s_tasks s -> s_filter s' = s_filter s ->
                 filteredTasks s' = filteredTasks s).
Proof.
  unfold list_view, filteredTasks. simpl.
  assert (HA : forall t, In t (filter (shown Active) (s_tasks s))
                         <-> In t (s_tasks s) /\ completed t = false).
  { intros t. rewrite filter_In. simpl. now rewrite negb_true_iff. }
  assert (HC : forall t, In t (filter (shown Completed) (s_tasks s))
                         <-> In t (s_tasks s) /\ completed t = true).
  { intros t. rewrite filter_In. simpl. tauto. }
  assert (HAll : filter (shown All) (s_tasks s) = s_tasks s).
  { apply filter_all. reflexivity. }
  split; [exact HAll|]. split; [exact HA|]. split; [exact HC|].
  split; [apply subseq_filter|]. split; [apply subseq_filter|].
  split; [|split].
  - intros t. rewrite HAll, HA, HC. destruct (completed t); intuition congruence.
  - intros t. rewrite HA, HC. intros [[_ H1] [_ H2]]. congruence.
  - intros s' H1 H2. now rewrite H1, H2.
Qed.

(* ================================================================= *)
(** ** The effect that saves (lines 43-51) *)

Lemma commit_keeps_tasks us s :
  sets_tasks us = false -> s_tasks (commit s us) = s_tasks s.
Proof.
  revert s. induction us as [|u us IH]; simpl; intros s H; [reflexivity|].
  apply orb_false_iff in H. destruct H as [Hu Hus].
  unfold commit in *. simpl. rewrite (IH _ Hus).
  destruct u; simpl; [discriminate | reflexivity..].
Qed.

Lemma persist_state ok w : state (persist ok w) = state w.
Proof. unfold persist. destruct ok; reflexivity. Qed.

(** C5: whatever the action, the state after it is the one its handler
    asked for, whether [setItem] stores the value or throws, and the
    handler's result is the same; and if the collection is not what it was,
    [setItem] has been called with the serialized new collection: when it
    stores, the slot holds that value, and when it throws, the slot keeps
    its content and the failure goes to [console.error]. *)
Theorem dispatch_persists ok ev w :
  let w1 := fst (dispatch ok ev w) in
  let value := JSON_stringify (s_tasks (state w1)) in
  state w1 = fst (run (handle ev) (state w))
  /\ snd (dispatch ok ev w) = snd (run (handle ev) (state w))
  /\ (s_tasks (state w1) <> s_tasks (state w) ->
      (ok = true ->
         slot w1 = Some value /\ trace w1 = IoSetItem value :: trace w)
      /\ (ok = false ->
         slot w1 = slot w
         /\ trace w1
            = IoConsoleError (str "Failed to save tasks to localStorage")
              :: IoSetItem value :: trace w)).
Proof.
  unfold dispatch, run. destruct (handle ev (state w)) as [us ret] eqn:E.
  simpl. destruct (sets_tasks us) eqn:Hs.
  - rewrite persist_state. simpl.
    split; [reflexivity|]. split; [reflexivity|]. intros _.
    unfold persist. simpl.
    destruct ok; simpl; split; intros H; try discriminate H;
      split; reflexivity.
  - simpl. split; [reflexivity|]. split; [reflexivity|].
    intros H. exfalso. apply H. now apply commit_keeps_tasks.
Qed.

Lemma dispatch_persists_witness :
  let w := mkWorld (mkState [buy_milk] [] None All) None [] in
  let w1 := fst (dispatch false (Toggle (id buy_milk)) w) in
  s_tasks (state w1) = [with_toggled buy_milk]
  /\ slot w1 = None
  /\ trace w1
     = [IoConsoleError (str "Failed to save tasks to localStorage");
        IoSetItem (JSON_stringify [with_toggled buy_milk])].
Proof.
  intros w w1.
  destruct (dispatch_persists false (Toggle (id buy_milk)) w)
    as (H1 & _ & H2).
  assert (Hne : s_tasks (state w1) <> s_tasks (state w))
    by (vm_compute; discriminate).
  destruct (H2 Hne) as [_ H3]. destruct (H3 eq_refl) as [H4 H5].
  split; [vm_compute; reflexivity|]. split; [exact H4 | exact H5].
Defined.

(* ================================================================= *)
(** ** Numbers as text and back *)

Section Radix.

Variable r : N.
Hypothesis radix_ge_2 : (2 <= r)%N.

Lemma div_radix_fuel fuel n :
  (n < 2 ^ N.of_nat (S fuel))%N -> (n / r < 2 ^ N.of_nat fuel)%N.
Proof.
  intros Hn. apply N.Div0.div_lt_upper_bound.
  rewrite Nat2N.inj_succ, N.pow_succ_r' in Hn.
  assert (2 * 2 ^ N.of_nat fuel <= r * 2 ^ N.of_nat fuel)%N
    by (apply N.mul_le_mono_r; exact radix_ge_2).
  lia.
Qed.

(** The digits, weighted by the powers of the radix, add up to the
    number. *)
Lemma digits_rev_value fuel : forall n,
  (n < 2 ^ N.of_nat fuel)%N ->
  fold_right (fun d a => a * r + d)%N 0%N (digits_rev fuel r n) = n.
Proof.
  induction fuel as [|f IH]; intros n Hn.
  - simpl in *. lia.
  - simpl. destruct (N.ltb_spec n r) as [Hlt|Hge]; simpl; [lia|].
    rewrite IH by now apply div_radix_fuel.
    rewrite N.mul_comm. symmetry. apply N.div_mod. lia.
Qed.

Lemma digits_rev_small fuel : forall n,
  Forall (fun d => d < r)%N (digits_rev fuel r n).
Proof.
  induction fuel as [|f IH]; intros n; simpl.
  - constructor.
  - destruct (N.ltb_spec n r) as [Hlt|Hge].
    + constructor; [exact Hlt | constructor].
    + constructor; [apply N.mod_lt; lia | apply IH].
Qed.

Lemma digits_rev_leading fuel : forall n,
  (0 < n)%N -> (n < 2 ^ N.of_nat fuel)%N ->
  exists d ds, rev (digits_rev fuel r n) = d :: ds /\ d <> 0%N.
Proof.
  induction fuel as [|f IH]; intros n Hpos Hn.
  - simpl in Hn. lia.
  - simpl. destruct (N.ltb_spec n r) as [Hlt|Hge].
    + exists n, []. split; [reflexivity | lia].
    + destruct (IH (n / r)%N) as (d & ds & E & Hd).
      * apply N.div_str_pos. lia.
      * now apply div_radix_fuel.
      * exists d, (ds ++ [(n mod r)%N]). simpl. rewrite E.
        split; [reflexivity | exact Hd].
Qed.

End Radix.

Lemma log2_fuel n : (n < 2 ^ N.of_nat (S (N.to_nat (N.log2 n))))%N.
Proof.
  rewrite Nat2N.inj_succ, N2Nat.id.
  destruct (N.eq_dec n 0) as [->|Hn]; [reflexivity|].
  apply N.log2_spec. lia.
Qed.

(** Reading the digits back gives the number. *)
Lemma digits_value_digits n : digits_value (digits 10 n) = n.
Proof.
  unfold digits_value, digits.
  set (l := digits_rev (S (N.to_nat (N.log2 n))) 10 n).
  assert (H : fold_right (fun d a => a * 10 + d)%N 0%N l = n)
    by (apply digits_rev_value; [lia | apply log2_fuel]).
  pose proof (fold_left_rev_right (fun d a => a * 10 + d)%N (rev l) 0%N) as E.
  rewrite rev_involutive in E. cbv beta in E. rewrite <- E. exact H.
Qed.

Lemma digits_small n : Forall (fun d => d < 10)%N (digits 10 n).
Proof.
  unfold digits. apply Forall_rev. apply digits_rev_small. lia.
Qed.

(** No leading zero, except for zero itself. *)
Lemma digits_leading n :
  n <> 0%N -> exists d ds, digits 10 n = d :: ds /\ d <> 0%N.
Proof.
  intros Hn. unfold digits. apply digits_rev_leading; try lia.
  apply log2_fuel.
Qed.

Lemma digit_char_dec d : (d < 10)%N -> digit_char d = (48 + d)%N.
Proof.
  intros H. unfold digit_char. destruct (N.ltb_spec d 10); [reflexivity | lia].
Qed.

Lemma is_digit_dec d : (d < 10)%N -> is_digit (48 + d) = true.
Proof.
  intros H. unfold is_digit. apply andb_true_iff. split; apply N.leb_le; lia.
Qed.

Lemma take_digits_chars ds rest :
  Forall (fun d => d < 10)%N ds ->
  is_digit (hd 0%N rest) = false ->
  take_digits (map digit_char ds ++ rest) = (ds, rest).
Proof.
  intros Hds Hrest. induction Hds as [|d ds Hd _ IH]; simpl.
  - destruct rest as [|c rest]; [reflexivity|]. simpl in *.
    now rewrite Hrest.
  - cbv beta in Hd. rewrite (digit_char_dec d Hd), (is_digit_dec d Hd), IH.
    f_equal. f_equal. lia.
Qed.

Lemma parse_int_digits n rest :
  is_digit (hd 0%N rest) = false ->
  parse_int (map digit_char (digits 10 n) ++ rest) = Some (digits 10 n, rest).
Proof.
  intros Hrest. destruct (N.eq_dec n 0) as [->|Hn]; [reflexivity|].
  pose proof (digits_small n) as Hs.
  pose proof (take_digits_chars _ rest Hs Hrest) as Ht.
  destruct (digits_leading n Hn) as (d & ds & E & Hd).
  rewrite E in *. inversion Hs as [|a b Hd10 _]; subst. cbv beta in Hd10.
  simpl map in *. simpl app in *. unfold parse_int.
  rewrite (digit_char_dec d Hd10) in *. rewrite (is_digit_dec d Hd10).
  destruct (N.eqb_spec (48 + d) 48) as [H|_]; [lia|].
  now rewrite Ht.
Qed.

(** A printed integer, followed by a closing brace, reads back as the
    integer. *)
Lemma parse_number_toString z rest :
  parse_number (toString 10 z ++ 125%N :: rest)
  = Some (int_num z, 125%N :: rest).
Proof.
  assert (Hrest : is_digit (hd 0%N (125%N :: rest)) = false) by reflexivity.
  pose proof (parse_int_digits (Z.abs_N z) (125%N :: rest) Hrest) as Hi.
  assert (Hm : forall m, make_number m (0 - Z.of_nat (@length N [])) = int_num m).
  { intros m. unfold make_number, int_num. simpl. f_equal. lia. }
  unfold toString. destruct (Z.ltb_spec z 0) as [Hneg|Hpos].
  - unfold parse_number. simpl app. cbv beta iota.
    rewrite N.eqb_refl. cbv beta iota. rewrite Hi. simpl.
    rewrite app_nil_r, digits_value_digits, Hm, N2Z.inj_abs_N.
      repeat f_equal; lia.
  - simpl app. unfold parse_number.
    destruct (map digit_char (digits 10 (Z.abs_N z)) ++ 125%N :: rest)
      as [|c r] eqn:E.
    + simpl in Hi. discriminate Hi.
    + assert (Hc : (c =? 45)%N = false).
      { unfold parse_int in Hi.
        destruct (N.eqb_spec c 48) as [->|_]; [reflexivity|].
        destruct (is_digit c) eqn:Hd; [|discriminate Hi].
        unfold is_digit in Hd. apply andb_true_iff in Hd.
        destruct Hd as [Hd _]. apply N.leb_le in Hd.
        apply N.eqb_neq. lia. }
      rewrite Hc, Hi. simpl.
      rewrite app_nil_r, digits_value_digits, Hm, N2Z.inj_abs_N.
      repeat f_equal; lia.
Qed.

(* ================================================================= *)
(** ** Strings as text and back *)

Lemma hex_val_digit_char d : (d < 16)%N -> hex_val (digit_char d) = Some d.
Proof.
  intros H. unfold digit_char, hex_val.
  destruct (N.ltb_spec d 10) as [Hd|Hd].
  - replace ((48 <=? 48 + d) && (48 + d <=? 57))%N with true
      by (symmetry; apply andb_true_iff; split; apply N.leb_le; lia).
    f_equal. lia.
  - replace ((48 <=? 87 + d) && (87 + d <=? 57))%N with false
      by (symmetry; apply andb_false_iff; right; apply N.leb_gt; lia).
    replace ((97 <=? 87 + d) && (87 + d <=? 102))%N with true
      by (symmetry; apply andb_true_iff; split; apply N.leb_le; lia).
    f_equal. lia.
Qed.

Lemma hex4_digits c :
  (c < 65536)%N ->
  hex4 (digit_char (c / 4096)) (digit_char ((c / 256) mod 16))
       (digit_char ((c / 16) mod 16)) (digit_char (c mod 16)) = Some c.
Proof.
  intros H. unfold hex4.
  rewrite !hex_val_digit_char;
    try (apply N.mod_lt; lia);
    try (apply N.Div0.div_lt_upper_bound; lia).
  f_equal. zify. Z.to_euclidean_division_equations. lia.
Qed.

(** Reading a [\u] escape gives the code unit. *)
Lemma parse_chars_uescape c s :
  (c < 65536)%N ->
  parse_chars (uescape c ++ s)
  = match parse_chars s with
    | Some (x, r) => Some (c :: x, r)
    | None => None
    end.
Proof.
  intros H. unfold uescape. simpl. now rewrite hex4_digits.
Qed.

(** Reading a code unit that goes out as it is. *)
Lemma parse_chars_plain c s :
  (32 <= c)%N -> c <> 34%N -> c <> 92%N ->
  parse_chars (c :: s)
  = match parse_chars s with
    | Some (x, r) => Some (c :: x, r)
    | None => None
    end.
Proof.
  intros H1 H2 H3. simpl.
  destruct (N.eqb_spec c 34) as [E|_]; [contradiction|].
  destruct (N.eqb_spec c 92) as [E|_]; [contradiction|].
  destruct (N.ltb_spec c 32) as [E|_]; [lia|]. reflexivity.
Qed.

Lemma parse_chars_escape_char c s :
  parse_chars (escape_char c ++ s)
  = match parse_chars s with
    | Some (x, r) => Some (c :: x, r)
    | None => None
    end.
Proof.
  unfold escape_char.
  destruct (N.eqb_spec c 8) as [->|H8]; [reflexivity|].
  destruct (N.eqb_spec c 9) as [->|H9]; [reflexivity|].
  destruct (N.eqb_spec c 10) as [->|H10]; [reflexivity|].
  destruct (N.eqb_spec c 12) as [->|H12]; [reflexivity|].
  destruct (N.eqb_spec c 13) as [->|H13]; [reflexivity|].
  destruct (N.eqb_spec c 34) as [->|H34]; [reflexivity|].
  destruct (N.eqb_spec c 92) as [->|H92]; [reflexivity|].
  destruct (N.ltb_spec c 32) as [Hlt|Hge].
  - apply parse_chars_uescape. lia.
  - now apply parse_chars_plain.
Qed.

Lemma surrogate_plain c :
  is_lead c = true \/ is_trail c = true ->
  (32 <= c)%N /\ c <> 34%N /\ c <> 92%N /\ (c < 65536)%N.
Proof.
  unfold is_lead, is_trail. rewrite !andb_true_iff, !N.leb_le. lia.
Qed.

Lemma quote_chars_cons c s :
  quote_chars (c :: s)
  = if is_lead c then
      match s with
      | d :: s' =>
          if is_trail d then c :: d :: quote_chars s'
          else uescape c ++ quote_chars s
      | [] => uescape c
      end
    else if is_trail c then uescape c ++ quote_chars s
    else escape_char c ++ quote_chars s.
Proof. reflexivity. Qed.

Lemma parse_chars_quote_chars_len n :
  forall s rest, length s <= n ->
  parse_chars (quote_chars s ++ 34%N :: rest) = Some (s, rest).
Proof.
  induction n as [|n IH]; intros s rest Hlen.
  - destruct s; [simpl; reflexivity | simpl in Hlen; lia].
  - destruct s as [|c s]; [simpl; reflexivity|].
    simpl in Hlen. rewrite quote_chars_cons.
    destruct (is_lead c) eqn:Hl.
    + destruct (surrogate_plain c (or_introl Hl)) as (P1 & P2 & P3 & P4).
      destruct s as [|d s].
      * rewrite parse_chars_uescape by exact P4. simpl. reflexivity.
      * destruct (is_trail d) eqn:Ht.
        -- destruct (surrogate_plain d (or_intror Ht)) as (Q1 & Q2 & Q3 & _).
           simpl app. rewrite (parse_chars_plain c) by assumption.
           rewrite (parse_chars_plain d) by assumption.
           rewrite IH by (simpl in Hlen; lia). reflexivity.
        -- rewrite <- app_assoc, parse_chars_uescape by exact P4.
           rewrite IH by lia. reflexivity.
    + destruct (is_trail c) eqn:Ht.
      * destruct (surrogate_plain c (or_intror Ht)) as (_ & _ & _ & P4).
        rewrite <- app_assoc, parse_chars_uescape by exact P4.
        rewrite IH by lia. reflexivity.
      * rewrite <- app_assoc, parse_chars_escape_char.
        rewrite IH by lia. reflexivity.
Qed.

(** What [JSON.stringify] writes for a string reads back as that
    string, whatever its code units. *)
Lemma parse_chars_quote_chars s rest :
  parse_chars (quote_chars s ++ 34%N :: rest) = Some (s, rest).
Proof. now apply (parse_chars_quote_chars_len (length s)). Qed.

Lemma quote_app s rest :
  quote s ++ rest = 34%N :: quote_chars s ++ 34%N :: rest.
Proof. unfold quote. simpl. now rewrite <- app_assoc. Qed.

(* ================================================================= *)
(** ** Values as text and back *)

Lemma parse_value_string f s rest :
  parse_value (S f) (quote s ++ rest) = Some (JStr s, rest).
Proof.
  rewrite quote_app. simpl. now rewrite parse_chars_quote_chars.
Qed.

Lemma parse_value_bool f (b : bool) rest :
  parse_value (S f) ((if b then str "true" else str "false") ++ rest)
  = Some (JBool b, rest).
Proof. destruct b; reflexivity. Qed.

(** Where [parse_number] reads a number, so does [parse_value]. *)
Lemma parse_value_number f s n r :
  parse_number s = Some (n, r) -> parse_value (S f) s = Some (JNum n, r).
Proof.
  intros H. destruct s as [|c s]; [discriminate H|].
  assert (Hc : c = 45%N \/ is_digit c = true).
  { unfold parse_number in H.
    destruct (N.eqb_spec c 45) as [E|_]; [now left|]. right.
    unfold parse_int in H.
    destruct (N.eqb_spec c 48) as [->|_]; [reflexivity|].
    destruct (is_digit c); [reflexivity | discriminate H]. }
  assert (Hr : (c = 45 \/ 48 <= c <= 57)%N).
  { destruct Hc as [->|Hd]; [now left|]. right.
    unfold is_digit in Hd. apply andb_true_iff in Hd.
    rewrite !N.leb_le in Hd. exact Hd. }
  clear Hc.
  assert (Hws : is_ws c = false).
  { unfold is_ws. rewrite !orb_false_iff, !N.eqb_neq. lia. }
  cbn [parse_value skip_ws]. rewrite Hws.
  destruct (N.eqb_spec c 110) as [E|_]; [lia|].
  destruct (N.eqb_spec c 116) as [E|_]; [lia|].
  destruct (N.eqb_spec c 102) as [E|_]; [lia|].
  destruct (N.eqb_spec c 34) as [E|_]; [lia|].
  destruct (N.eqb_spec c 91) as [E|_]; [lia|].
  destruct (N.eqb_spec c 123) as [E|_]; [lia|].
  now rewrite H.
Qed.

Lemma parse_value_int f z rest :
  parse_value (S f) (toString 10 z ++ 125%N :: rest)
  = Some (JNum (int_num z), 125%N :: rest).
Proof. apply parse_value_number, parse_number_toString. Qed.

Lemma skip_ws_here c s : is_ws c = false -> skip_ws (c :: s) = c :: s.
Proof. intros H. simpl. now rewrite H. Qed.

(** Tests on characters that are known. *)
Ltac known_chars :=
  cbv beta iota;
  repeat (rewrite skip_ws_here by reflexivity; cbv beta iota);
  repeat match goal with
    | |- context [N.eqb ?a ?b] =>
        let r := eval vm_compute in (N.eqb a b) in
        match r with
        | true => change (N.eqb a b) with true
        | false => change (N.eqb a b) with false
        end
    end;
  cbv beta iota; cbn [negb].

(** The last member of an object. *)
Lemma parse_members_last f k vtext v rest :
  parse_value f (vtext ++ 125%N :: rest) = Some (v, 125%N :: rest) ->
  parse_members (S f) (quote k ++ 58%N :: vtext ++ 125%N :: rest)
  = Some ([(k, v)], rest).
Proof.
  intros H. rewrite quote_app. cbn [parse_members]. known_chars.
  rewrite parse_chars_quote_chars. known_chars.
  rewrite H. known_chars. reflexivity.
Qed.

(** A member followed by others. *)
Lemma parse_members_more f k vtext v more ms rest :
  parse_value f (vtext ++ 44%N :: more) = Some (v, 44%N :: more) ->
  parse_members f more = Some (ms, rest) ->
  parse_members (S f) (quote k ++ 58%N :: vtext ++ 44%N :: more)
  = Some ((k, v) :: ms, rest).
Proof.
  intros H Hm. rewrite quote_app. cbn [parse_members]. known_chars.
  rewrite parse_chars_quote_chars. known_chars.
  rewrite H. known_chars. rewrite Hm. reflexivity.
Qed.

(** An object with at least one member. *)
Lemma parse_value_object f k r ms rest :
  parse_members f (quote k ++ r) = Some (ms, rest) ->
  parse_value (S f) (123%N :: quote k ++ r)
  = Some (JObj (fold_left (fun o kv => obj_set (fst kv) (snd kv) o) ms []),
          rest).
Proof.
  intros H. rewrite quote_app in *. cbn [parse_value]. known_chars.
  rewrite H. reflexivity.
Qed.

(** A task object. *)
Lemma parse_value_task f t rest :
  parse_value (6 + f) (stringify_task t ++ rest) = Some (task_val t, rest).
Proof.
  unfold stringify_task. rewrite <- !app_assoc. cbn [app Nat.add].
  rewrite (parse_value_object _ _ _
             [(str "id", JStr (id t)); (str "text", JStr (text t));
              (str "completed", JBool (completed t));
              (str "createdAt", JNum (int_num (createdAt t)))] rest).
  - reflexivity.
  - apply parse_members_more; [apply parse_value_string|].
    apply parse_members_more; [apply parse_value_string|].
    apply parse_members_more; [apply parse_value_bool|].
    apply parse_members_last. apply parse_value_int.
Qed.

Lemma stringify_task_head t :
  exists r, stringify_task t = 123%N :: r.
Proof. unfold stringify_task. simpl. eauto. Qed.

(** The last element of an array of tasks. *)
Lemma parse_elements_last f t rest :
  parse_elements (7 + f) (stringify_task t ++ 93%N :: rest)
  = Some ([task_val t], rest).
Proof.
  cbn [parse_elements Nat.add]. rewrite (parse_value_task f t).
  known_chars. reflexivity.
Qed.

Lemma parse_elements_tasks f l rest :
  l <> [] ->
  parse_elements (length l + 6 + f)
    (join_comma (map stringify_task l) ++ 93%N :: rest)
  = Some (map task_val l, rest).
Proof.
  induction l as [|t l IH]; intros Hne; [congruence|].
  destruct l as [|t' l].
  - simpl map. simpl join_comma. apply parse_elements_last.
  - change (join_comma (map stringify_task (t :: t' :: l)))
      with (stringify_task t ++ [44%N]
            ++ join_comma (map stringify_task (t' :: l))).
    rewrite <- !app_assoc. cbn [app].
    replace (length (t :: t' :: l) + 6 + f)
      with (S (length (t' :: l) + 6 + f)) by (simpl; lia).
    specialize (IH ltac:(congruence)).
    set (n := length (t' :: l) + 6 + f) in *.
    set (more := join_comma (map stringify_task (t' :: l)) ++ 93%N :: rest) in *.
    assert (Hv : parse_value n (stringify_task t ++ 44%N :: more)
                 = Some (task_val t, 44%N :: more)).
    { unfold n. replace (length (t' :: l) + 6 + f)
        with (6 + (length (t' :: l) + f)) by lia.
      apply parse_value_task. }
    cbn [parse_elements]. rewrite Hv. known_chars. rewrite IH. reflexivity.
Qed.

Lemma stringify_task_length t : 7 <= length (stringify_task t).
Proof.
  unfold stringify_task, quote. rewrite !length_app. simpl. lia.
Qed.

Lemma join_comma_length l :
  7 * length l <= length (join_comma (map stringify_task l)).
Proof.
  induction l as [|t l IH]; [simpl; lia|].
  pose proof (stringify_task_length t).
  destruct l as [|t' l]; [simpl in *; lia|].
  change (join_comma (map stringify_task (t :: t' :: l)))
    with (stringify_task t ++ [44%N]
          ++ join_comma (map stringify_task (t' :: l))).
  rewrite !length_app. simpl length in *. lia.
Qed.

(** What [JSON.stringify] writes for a collection, [JSON.parse] reads
    back as that collection. *)
Lemma JSON_parse_stringify l :
  JSON_parse (JSON_stringify l) = Some (tasks_val l).
Proof.
  unfold JSON_parse, JSON_stringify, tasks_val.
  destruct l as [|t l]; [reflexivity|].
  set (raw := [91%N] ++ join_comma (map stringify_task (t :: l)) ++ [93%N]).
  assert (Hlen : length (t :: l) + 6 <= 2 * length raw).
  { unfold raw. rewrite !length_app.
    pose proof (join_comma_length (t :: l)). simpl length in *. lia. }
  replace (2 * length raw)
    with (length (t :: l) + 6 + (2 * length raw - length (t :: l) - 6)) by lia.
  set (f := 2 * length raw - length (t :: l) - 6).
  pose proof (parse_elements_tasks f (t :: l) [] ltac:(congruence)) as H.
  set (n := length (t :: l) + 6 + f) in *.
  clearbody n. unfold raw. clear Hlen f raw.
  destruct (stringify_task_head t) as [r Hr].
  assert (Hj : exists r', join_comma (map stringify_task (t :: l)) = 123%N :: r').
  { destruct l; cbn [map join_comma]; rewrite Hr; cbn [app]; eauto. }
  destruct Hj as [r' Hj]. rewrite Hj in *.
  cbn [parse_value app]. known_chars.
  cbn [app] in H. rewrite H. reflexivity.
Qed.

Lemma as_task_task_val t : as_task (task_val t) = Some t.
Proof. destruct t. reflexivity. Qed.

Lemma as_tasks_tasks_val l : as_tasks (tasks_val l) = Some l.
Proof.
  unfold as_tasks, tasks_val. induction l as [|t l IH]; [reflexivity|].
  simpl map. cbn [as_task_list]. now rewrite as_task_task_val, IH.
Qed.

(* ================================================================= *)
(** ** Saving and loading (lines 17-25 and 43-51) *)

(** C6: for a collection whose timestamps are epoch milliseconds (in the
    range of [Date], where a number prints with all its digits), when
    [setItem] stores what the effect hands it, the initializer of the next
    session reads back, without logging anything, an array of objects with
    the four properties of each task in their order, that is, the very
    collection that was saved: same tasks, same fields, same order, be it
    empty or not, timestamps digit for digit. *)
Theorem save_then_load w :
  Forall (fun t => time_value (createdAt t)) (s_tasks (state w)) ->
  let w1 := persist true w in
  slot w1 = Some (JSON_stringify (s_tasks (state w)))
  /\ initial_tasks (GetItem (slot w1)) = (tasks_val (s_tasks (state w)), [])
  /\ as_tasks (fst (initial_tasks (GetItem (slot w1))))
     = Some (s_tasks (state w)).
Proof.
  intros _. cbn [persist slot]. split; [reflexivity|].
  assert (H : initial_tasks (GetItem (Some (JSON_stringify (s_tasks (state w)))))
              = (tasks_val (s_tasks (state w)), [])).
  { unfold initial_tasks.
    replace (truthy_str (JSON_stringify (s_tasks (state w)))) with true
      by reflexivity.
    now rewrite JSON_parse_stringify. }
  split; [exact H|]. rewrite H. apply as_tasks_tasks_val.
Qed.

Lemma save_then_load_witness :
  let w := mkWorld (mkState [walk_dog; with_toggled buy_milk] [] None All)
                   None [] in
  as_tasks (fst (initial_tasks (GetItem (slot (persist true w)))))
  = Some [walk_dog; with_toggled buy_milk].
Proof.
  intros w.
  assert (H : Forall (fun t => time_value (createdAt t)) (s_tasks (state w))).
  { repeat constructor; unfold time_value; simpl; lia. }
  exact (proj2 (proj2 (save_then_load w H))).
Defined.

(** Where nothing can be read, the component starts empty. *)
Lemma initial_tasks_fallback r :
  match r with
  | GetItemThrows | GetItem None => True
  | GetItem (Some raw) => raw = [] \/ JSON_parse raw = None
  end ->
  fst (initial_tasks r) = JArr [].
Proof.
  destruct r as [|[raw|]]; simpl; try reflexivity.
  intros [->|H]; [reflexivity|]. rewrite H. now destruct (truthy_str raw).
Qed.


(** C4 fails on the code: a slot that holds JSON text for something other
    than an array (here [null], an object, a number) passes the [try] of
    lines 18-24, so [tasks] starts as that value and not as the empty
    collection, nothing is logged, and the first render throws at
    [tasks.filter] (line 109). *)
Theorem initial_tasks_not_a_collection :
  initial_tasks (GetItem (Some (str "null"))) = (JNull, [])
  /\ initial_tasks (GetItem (Some (str "{}"))) = (JObj [], [])
  /\ initial_tasks (GetItem (Some (str "42"))) = (JNum (int_num 42), [])
  /\ JNull <> JArr []
  /\ as_tasks JNull = None
  /\ filteredTasks_raw All JNull = None
  /\ filteredTasks_raw All (JObj []) = None
  /\ filteredTasks_raw All (JNum (int_num 42)) = None.
Proof.
  repeat split; try (vm_compute; reflexivity). discriminate.
Qed.

(** On a collection, line 109 as written for any value agrees with the
    view of the component. *)
Lemma filteredTasks_raw_tasks f l :
  filteredTasks_raw f (tasks_val l) = Some (map task_val (filter (shown f) l)).
Proof.
  unfold filteredTasks_raw, tasks_val.
  induction l as [|t l IH]; [reflexivity|].
  cbn [map filter_raw filter]. rewrite IH.
  destruct f, t as [a b c d]; simpl; destruct c; reflexivity.
Qed.

(* ================================================================= *)
(** ** The parser's fuel *)

(** Every successful parse uses up input, so the fuel [JSON_parse] gives,
    twice the length of the text and one more, is never the reason for a
    failure. *)

Lemma skip_ws_length s : length (skip_ws s) <= length s.
Proof.
  induction s as [|c s IH]; simpl; [lia|].
  destruct (is_ws c); simpl; lia.
Qed.

Lemma parse_chars_length s : forall x r,
  parse_chars s = Some (x, r) -> length r < length s.
Proof.
  induction s as [s IH] using (well_founded_induction
    (Wf_nat.well_founded_ltof _ (@length N))).
  unfold Wf_nat.ltof in IH.
  intros x r H. destruct s as [|c s]; [discriminate H|].
  simpl in H.
  destruct (c =? 34)%N.
  { injection H as <- <-. simpl. lia. }
  destruct (c =? 92)%N.
  - destruct s as [|e s]; [discriminate H|].
    destruct (e =? 117)%N.
    + destruct s as [|h1 [|h2 [|h3 [|h4 s]]]]; try discriminate H.
      destruct (hex4 h1 h2 h3 h4); [|discriminate H].
      destruct (parse_chars s) as [[x' r']|] eqn:E; [|discriminate H].
      injection H as <- <-. apply IH in E; simpl in *; lia.
    + destruct (unescape e); [|discriminate H].
      destruct (parse_chars s) as [[x' r']|] eqn:E; [|discriminate H].
      injection H as <- <-. apply IH in E; simpl in *; lia.
  - destruct (c <? 32)%N; [discriminate H|].
    destruct (parse_chars s) as [[x' r']|] eqn:E; [|discriminate H].
    injection H as <- <-. apply IH in E; simpl in *; lia.
Qed.

Lemma expect_length w : forall s r, expect w s = Some r -> length r <= length s.
Proof.
  induction w as [|a w IH]; intros s r H.
  - destruct s; injection H as <-; lia.
  - destruct s as [|c s]; [discriminate H|]. simpl in H.
    destruct (a =? c)%N; [|discriminate H]. apply IH in H. simpl. lia.
Qed.

Lemma take_digits_length s : length (snd (take_digits s)) <= length s.
Proof.
  induction s as [|c s IH]; simpl; [lia|].
  destruct (is_digit c); simpl; [|lia].
  destruct (take_digits s); simpl in *. lia.
Qed.

Lemma parse_number_length s n r :
  parse_number s = Some (n, r) -> length r < length s.
Proof.
  unfold parse_number. intros H.
  assert (Hint : forall s1 ids s2, parse_int s1 = Some (ids, s2) -> length s2 < length s1).
  { intros s1 ids s2 Hi. unfold parse_int in Hi.
    destruct s1 as [|c r1]; [discriminate Hi|].
    destruct (c =? 48)%N; [injection Hi as <- <-; simpl; lia|].
    destruct (is_digit c) eqn:Hd; [|discriminate Hi].
    injection Hi as Hi. simpl in Hi. rewrite Hd in Hi.
    pose proof (take_digits_length r1).
    destruct (take_digits r1). injection Hi as <- <-. simpl in *. lia. }
  assert (Hfrac : forall s2 fds s3, parse_frac s2 = Some (fds, s3) -> length s3 <= length s2).
  { intros s2 fds s3 Hf. unfold parse_frac in Hf.
    destruct s2 as [|c r2]; [injection Hf as <- <-; lia|].
    destruct (c =? 46)%N; [|injection Hf as <- <-; lia].
    pose proof (take_digits_length r2).
    destruct (take_digits r2) as [[|d ds] r']; [discriminate Hf|].
    injection Hf as <- <-. simpl in *. lia. }
  assert (Hexp : forall s3 e s4, parse_exp s3 = Some (e, s4) -> length s4 <= length s3).
  { intros s3 e s4 He. unfold parse_exp in He.
    destruct s3 as [|c r3]; [injection He as <- <-; lia|].
    destruct ((c =? 101) || (c =? 69))%N; [|injection He as <- <-; lia].
    destruct r3 as [|d r'].
    - simpl in He. discriminate He.
    - destruct (d =? 43)%N.
      + pose proof (take_digits_length r').
        destruct (take_digits r') as [[|x ds] r'']; [discriminate He|].
        injection He as <- <-. simpl in *. lia.
      + destruct (d =? 45)%N.
        * pose proof (take_digits_length r').
          destruct (take_digits r') as [[|x ds] r'']; [discriminate He|].
          injection He as <- <-. simpl in *. lia.
        * pose proof (take_digits_length (d :: r')).
          destruct (take_digits (d :: r')) as [[|x ds] r'']; [discriminate He|].
          injection He as <- <-. simpl in *. lia. }
  destruct s as [|c s0].
  - simpl in H. discriminate H.
  - destruct (c =? 45)%N.
    + destruct (parse_int s0) as [[ids s2]|] eqn:E1; [|discriminate H].
      destruct (parse_frac s2) as [[fds s3]|] eqn:E2; [|discriminate H].
      destruct (parse_exp s3) as [[e s4]|] eqn:E3; [|discriminate H].
      injection H as <- <-. apply Hint in E1. apply Hfrac in E2. apply Hexp in E3.
      simpl. lia.
    + destruct (parse_int (c :: s0)) as [[ids s2]|] eqn:E1; [|discriminate H].
      destruct (parse_frac s2) as [[fds s3]|] eqn:E2; [|discriminate H].
      destruct (parse_exp s3) as [[e s4]|] eqn:E3; [|discriminate H].
      injection H as <- <-. apply Hint in E1. apply Hfrac in E2. apply Hexp in E3.
      simpl in *. lia.
Qed.

Ltac split_match H :=
  match type of H with
  | context [match ?x with _ => _ end] => destruct x eqn:?
  | context [if ?b then _ else _] => destruct b eqn:?
  end.

Lemma parse_consumes f :
  (forall s v r, parse_value f s = Some (v, r) -> length r < length s)
  /\ (forall s vs r, parse_elements f s = Some (vs, r) -> length r < length s)
  /\ (forall s ms r, parse_members f s = Some (ms, r) -> length r < length s).
Proof.
  induction f as [|f (IHv & IHe & IHm)].
  - repeat split; intros; discriminate.
  - repeat split; intros s v r H; cbn [parse_value parse_elements parse_members] in H;
      repeat split_match H; try discriminate H;
      injection H as <- <-;
      repeat match goal with
        | E : skip_ws ?x = _ |- _ =>
            let L := fresh "L" in
            pose proof (skip_ws_length x) as L; rewrite E in L; clear E
        | E : expect _ _ = Some _ |- _ => apply expect_length in E
        | E : parse_chars _ = Some _ |- _ => apply parse_chars_length in E
        | E : parse_number _ = Some _ |- _ => apply parse_number_length in E
        | E : parse_value f _ = Some _ |- _ => apply IHv in E
        | E : parse_elements f _ = Some _ |- _ => apply IHe in E
        | E : parse_members f _ = Some _ |- _ => apply IHm in E
        end; simpl in *; lia.
Qed.

Lemma parse_stable f :
  (forall s f', 2 * length s < f -> f <= f' ->
                parse_value f' s = parse_value f s)
  /\ (forall s f', 2 * length s + 1 < f -> f <= f' ->
                   parse_elements f' s = parse_elements f s)
  /\ (forall s f', 2 * length s + 1 < f -> f <= f' ->
                   parse_members f' s = parse_members f s).
Proof.
  induction f as [|f (IHv & IHe & IHm)].
  - repeat split; intros; lia.
  - destruct (parse_consumes f) as (Cv & Ce & Cm).
    repeat split; intros s [|f'] Hs Hf; try lia;
      cbn [parse_value parse_elements parse_members].
    + pose proof (skip_ws_length s) as L.
      destruct (skip_ws s) as [|c r]; [reflexivity|]. simpl in L.
      repeat match goal with
        | |- (if ?b then _ else _) = (if ?b then _ else _) =>
            destruct b; [try reflexivity|]
        end.
      * pose proof (skip_ws_length r) as L'.
        destruct (skip_ws r) as [|d r']; [reflexivity|].
        destruct (d =? 93)%N; [reflexivity|].
        rewrite (IHe r f') by lia. reflexivity.
      * pose proof (skip_ws_length r) as L'.
        destruct (skip_ws r) as [|d r']; [reflexivity|].
        destruct (d =? 125)%N; [reflexivity|].
        rewrite (IHm r f') by lia. reflexivity.
      * reflexivity.
    + rewrite (IHv s f') by lia.
      destruct (parse_value f s) as [[v r]|] eqn:E; [|reflexivity].
      apply Cv in E. pose proof (skip_ws_length r) as L.
      destruct (skip_ws r) as [|d r']; [reflexivity|]. simpl in L.
      destruct (d =? 44)%N; [|reflexivity].
      rewrite (IHe r' f') by lia. reflexivity.
    + pose proof (skip_ws_length s) as L.
      destruct (skip_ws s) as [|q r]; [reflexivity|]. simpl in L.
      destruct (negb (q =? 34)%N); [reflexivity|].
      destruct (parse_chars r) as [[k r1]|] eqn:E1; [|reflexivity].
      apply parse_chars_length in E1.
      pose proof (skip_ws_length r1) as L1.
      destruct (skip_ws r1) as [|c r2]; [reflexivity|]. simpl in L1.
      destruct (negb (c =? 58)%N); [reflexivity|].
      rewrite (IHv r2 f') by lia.
      destruct (parse_value f r2) as [[v r3]|] eqn:E3; [|reflexivity].
      apply Cv in E3. pose proof (skip_ws_length r3) as L3.
      destruct (skip_ws r3) as [|d r4]; [reflexivity|]. simpl in L3.
      destruct (d =? 44)%N; [|reflexivity].
      rewrite (IHm r4 f') by lia. reflexivity.
Qed.

(** More fuel than [JSON_parse] gives changes no result: it never fails
    for want of fuel. *)
Lemma JSON_parse_fuel raw f :
  2 * length raw < f -> parse_value f raw = parse_value (S (2 * length raw)) raw.
Proof.
  intros H. apply (proj1 (parse_stable (S (2 * length raw)))); lia.
Qed.

(* ================================================================= *)
(** ** The scenario of section 8 *)

Example scenario :
  let w0 := mkWorld empty_state None [] in
  let w2 := play [ChangeText (str "Buy milk"); Submit sample_env;
                  ChangeText (str "Walk dog"); Submit later_env] w0 in
  let w3 := play [Toggle (id buy_milk)] w2 in
  let w4 := play [ClearCompleted] w3 in
  s_tasks (state w2) = [walk_dog; buy_milk]
  /\ list_view Completed (state w3) = [with_toggled buy_milk]
  /\ list_view Active (state w3) = [walk_dog]
  /\ s_tasks (state w4) = [walk_dog]
  /\ slot w4 = Some (JSON_stringify [walk_dog])
  /\ as_tasks (fst (initial_tasks (GetItem (slot w4)))) = Some [walk_dog].
Proof. vm_compute. repeat split. Qed.

(* ================================================================= *)
(** ** trim (line 63) *)

Lemma trimStart_shape s :
  trimStart s = []
  \/ exists c r, trimStart s = c :: r /\ is_space c = false.
Proof.
  induction s as [|c s IH]; simpl; [now left|].
  destruct (is_space c) eqn:E; [exact IH|]. right. eauto.
Qed.

Lemma trimStart_nil s : trimStart s = [] <-> forallb is_space s = true.
Proof.
  induction s as [|c s IH]; simpl; [tauto|].
  destruct (is_space c); simpl; [exact IH|]. split; discriminate.
Qed.

Lemma trimStart_head c r : is_space c = false -> trimStart (c :: r) = c :: r.
Proof. intros H. simpl. now rewrite H. Qed.

Lemma trimStart_app a b :
  trimStart (a ++ b)
  = match trimStart a with
    | [] => trimStart b
    | _ :: _ => trimStart a ++ b
    end.
Proof.
  induction a as [|c a IH]; simpl; [reflexivity|].
  destruct (is_space c); [exact IH | reflexivity].
Qed.

Lemma trimEnd_cons c r :
  trimEnd (c :: r)
  = match trimEnd r with
    | [] => if is_space c then [] else [c]
    | _ :: _ => c :: trimEnd r
    end.
Proof.
  unfold trimEnd. simpl rev. rewrite trimStart_app.
  destruct (trimStart (rev r)) as [|d u] eqn:E.
  - simpl. destruct (is_space c); reflexivity.
  - rewrite rev_app_distr. simpl.
    destruct (rev u ++ [d]) eqn:E'; [|reflexivity].
    destruct (rev u); discriminate E'.
Qed.

Lemma trimEnd_nil s : trimEnd s = [] <-> forallb is_space s = true.
Proof.
  induction s as [|c s IH]; [simpl; tauto|].
  rewrite trimEnd_cons. simpl.
  destruct (trimEnd s) eqn:E.
  - destruct (is_space c); simpl.
    + rewrite <- IH. tauto.
    + split; discriminate.
  - rewrite andb_true_iff, <- IH. split; [discriminate | intros [_ H]; discriminate H].
Qed.

(** [trim] gives the empty string exactly on white space. *)
Lemma trim_nil s : trim s = [] <-> forallb is_space s = true.
Proof.
  unfold trim. rewrite trimEnd_nil.
  destruct (trimStart_shape s) as [E|(c & r & E & Hc)]; rewrite E.
  - simpl. split; [intros _; now apply trimStart_nil | reflexivity].
  - simpl. rewrite Hc. simpl. split; [discriminate|].
    intros H. apply trimStart_nil in H. rewrite E in H. discriminate H.
Qed.

Lemma trimEnd_trimEnd s : trimEnd (trimEnd s) = trimEnd s.
Proof.
  unfold trimEnd. rewrite rev_involutive. f_equal.
  destruct (trimStart_shape (rev s)) as [E|(c & r & E & Hc)]; rewrite E.
  - reflexivity.
  - now apply trimStart_head.
Qed.

Lemma trim_trim s : trim (trim s) = trim s.
Proof.
  unfold trim.
  destruct (trimStart_shape s) as [E|(c & r & E & Hc)]; rewrite E.
  - reflexivity.
  - rewrite trimEnd_cons.
    destruct (trimEnd r) eqn:Er.
    + rewrite Hc, (trimStart_head c [] Hc), trimEnd_cons.
      change (trimEnd []) with (@nil N). now rewrite Hc.
    + rewrite (trimStart_head c _ Hc), <- Er.
      rewrite trimEnd_cons, trimEnd_trimEnd, Er. reflexivity.
Qed.

(* ================================================================= *)
(** ** Submitting (lines 61-84, 142, 144) *)

(** X1: the submit button is disabled exactly when the input is white
    space from end to end (the empty input included), and that is exactly
    when [addTask], reached by the Enter key all the same, queues no
    update at all. *)
Theorem submit_ignored_iff_white_space env s :
  (submitDisabled s = true <-> forallb is_space (s_text s) = true)
  /\ (fst (addTask env s) = [] <-> forallb is_space (s_text s) = true).
Proof.
  rewrite <- trim_nil. unfold submitDisabled, addTask.
  destruct (trim (s_text s)) as [|c r] eqn:E; simpl.
  - split; split; reflexivity.
  - split; [split; discriminate|].
    destruct (editing s); split; discriminate.
Qed.

(** X2: on input that is not blank, the label of the submit button tells
    what submitting does: under "Save" the collection keeps its length and
    its ids, under "Add" it grows by one task. *)
Theorem submitLabel_tells env s :
  trim (s_text s) <> [] ->
  let s1 := fst (run (addTask env) s) in
  (submitLabel s = str "Save" \/ submitLabel s = str "Add")
  /\ (submitLabel s = str "Save" ->
      map id (s_tasks s1) = map id (s_tasks s))
  /\ (submitLabel s = str "Add" ->
      length (s_tasks s1) = S (length (s_tasks s))).
Proof.
  intros Ht. cbv zeta. unfold submitLabel.
  destruct (editing s) as [i|] eqn:He.
  - rewrite (addTask_edit env s i Ht He). simpl.
    split; [now left|]. split; [|intros H; vm_compute in H; discriminate H].
    intros _. rewrite map_map. apply map_ext. intros t.
    unfold edit_one. now destruct (str_eqb (id t) i).
  - rewrite (addTask_new env s Ht He). simpl.
    split; [now right|]. split; [intros H; vm_compute in H; discriminate H|].
    reflexivity.
Qed.

Lemma submitLabel_tells_witness :
  let s := mkState [walk_dog; buy_milk] (str "Buy oat milk")
                   (Some (id buy_milk)) All in
  map id (s_tasks (fst (run (addTask sample_env) s)))
  = map id (s_tasks s).
Proof.
  intros s.
  assert (Ht : trim (s_text s) <> []) by (vm_compute; discriminate).
  exact (proj1 (proj2 (submitLabel_tells sample_env s Ht)) eq_refl).
Defined.

(** X3: once [addTask] has accepted its input, the input is empty, no
    edit is in progress, and the submit button is disabled again. *)
Theorem accepted_submit_resets env s :
  trim (s_text s) <> [] ->
  let s1 := fst (run (addTask env) s) in
  s_text s1 = [] /\ editing s1 = None
  /\ submitDisabled s1 = true /\ submitLabel s1 = str "Add".
Proof.
  intros Ht. cbv zeta. destruct (editing s) as [i|] eqn:He.
  - rewrite (addTask_edit env s i Ht He). repeat split.
  - rewrite (addTask_new env s Ht He).
    assert (H : editing (mkState (newTask env (trim (s_text s)) :: s_tasks s)
                           [] (s_editingId s) (s_filter s)) = None)
      by exact He.
    unfold submitLabel. rewrite H. repeat split.
Qed.

Lemma accepted_submit_resets_witness :
  let s := mkState [walk_dog] (str " Buy milk") None Completed in
  s_text (fst (run (addTask sample_env) s)) = []
  /\ editing (fst (run (addTask sample_env) s)) = None.
Proof.
  intros s.
  assert (Ht : trim (s_text s) <> []) by (vm_compute; discriminate).
  destruct (accepted_submit_resets sample_env s Ht) as (H1 & H2 & _).
  split; [exact H1 | exact H2].
Defined.

(* ================================================================= *)
(** ** What every handler keeps *)

Lemma trimmed_texts_filter p l :
  trimmed_texts l -> trimmed_texts (filter p l).
Proof.
  unfold trimmed_texts. rewrite !Forall_forall. intros H t Ht.
  apply filter_In in Ht. apply H. tauto.
Qed.

(** X4: no handler ever stores a task whose text is empty or has white
    space at either end: if every stored text is trimmed and not empty
    before an action, so it is after. *)
Theorem texts_stay_trimmed ev s :
  trimmed_texts (s_tasks s) ->
  trimmed_texts (s_tasks (fst (run (handle ev) s))).
Proof.
  intros H. destruct ev as [env|v|task| |i|i| |f]; cbn [handle]; try exact H.
  - destruct (list_eq_dec N.eq_dec (trim (s_text s)) []) as [Hb|Hb].
    { now rewrite addTask_blank. }
    destruct (editing s) as [i|] eqn:He.
    + rewrite (addTask_edit env s i Hb He). simpl.
      unfold trimmed_texts in *. rewrite Forall_forall in *.
      intros t Ht. apply in_map_iff in Ht. destruct Ht as (u & <- & Hu).
      unfold edit_one. destruct (str_eqb (id u) i); [|now apply H].
      simpl. split; [exact Hb | apply trim_trim].
    + rewrite (addTask_new env s Hb He). simpl.
      constructor; [|exact H]. simpl. split; [exact Hb | apply trim_trim].
  - simpl. unfold trimmed_texts in *. rewrite Forall_forall in *.
    intros t Ht. apply in_map_iff in Ht. destruct Ht as (u & <- & Hu).
    unfold toggle_one. destruct (str_eqb (id u) i); [|now apply H].
    simpl. now apply H.
  - simpl. now apply trimmed_texts_filter.
  - simpl. now apply trimmed_texts_filter.
Qed.

Lemma texts_stay_trimmed_witness :
  let s := mkState [walk_dog] (str "   Buy milk   ") None All in
  trimmed_texts (s_tasks (fst (run (handle (Submit sample_env)) s))).
Proof.
  intros s. apply texts_stay_trimmed.
  constructor; [|constructor].
  split; [vm_compute; discriminate | vm_compute; reflexivity].
Defined.

Lemma subseq_map {A B} (f : A -> B) l1 l2 :
  subseq l1 l2 -> subseq (map f l1) (map f l2).
Proof.
  induction 1; simpl;
    [apply subseq_nil | now apply subseq_skip | now apply subseq_keep].
Qed.

Lemma subseq_In {A} (l1 l2 : list A) x : subseq l1 l2 -> In x l1 -> In x l2.
Proof.
  induction 1; simpl; [tauto | auto | intros [->|H']; auto].
Qed.

Lemma subseq_NoDup {A} (l1 l2 : list A) :
  subseq l1 l2 -> NoDup l2 -> NoDup l1.
Proof.
  induction 1 as [|x l1 l2 Hs IH|x l1 l2 Hs IH]; intros Hnd.
  - exact Hnd.
  - inversion Hnd; subst. auto.
  - inversion Hnd as [|a m Hnotin Hnd']; subst. constructor; [|auto].
    intros Hin. apply Hnotin. now apply (subseq_In l1 l2).
Qed.

(** X5: no action changes the id of a stored task or the order of the
    ids: after it the ids are the former ones, some of them dropped, or,
    when a submit adds a task, the former ones behind the id of [createId].
    So distinct ids stay distinct as long as the id of each added task is
    not in use. *)
Theorem ids_kept ev s :
  let s1 := fst (run (handle ev) s) in
  (subseq (map id (s_tasks s1)) (map id (s_tasks s))
   \/ exists env, ev = Submit env
        /\ map id (s_tasks s1)
           = createId (clock_id env) (random36 env) :: map id (s_tasks s))
  /\ (NoDup (map id (s_tasks s)) -> fresh_id ev s ->
      NoDup (map id (s_tasks s1))).
Proof.
  cbv zeta.
  assert (D : subseq (map id (s_tasks (fst (run (handle ev) s))))
                     (map id (s_tasks s))
              \/ exists env, ev = Submit env
                   /\ map id (s_tasks (fst (run (handle ev) s)))
                      = createId (clock_id env) (random36 env)
                        :: map id (s_tasks s)).
  { destruct ev as [env|v|task| |i|i| |f]; cbn [handle];
      try (left; apply subseq_refl).
    - destruct (list_eq_dec N.eq_dec (trim (s_text s)) []) as [Hb|Hb].
      { left. rewrite addTask_blank by exact Hb. apply subseq_refl. }
      destruct (editing s) as [i|] eqn:He.
      + left. rewrite (addTask_edit env s i Hb He). simpl.
        rewrite map_map.
        replace (map (fun t => id (edit_one i (trim (s_text s)) t)) (s_tasks s))
          with (map id (s_tasks s)); [apply subseq_refl|].
        apply map_ext. intros t. unfold edit_one.
        now destruct (str_eqb (id t) i).
      + right. exists env. split; [reflexivity|].
        rewrite (addTask_new env s Hb He). reflexivity.
    - left. simpl. rewrite map_map.
      replace (map (fun t => id (toggle_one i t)) (s_tasks s))
        with (map id (s_tasks s)); [apply subseq_refl|].
      apply map_ext. intros t. unfold toggle_one.
      now destruct (str_eqb (id t) i).
    - left. simpl. apply subseq_map, subseq_filter.
    - left. simpl. apply subseq_map, subseq_filter. }
  split; [exact D|]. intros Hnd Hf.
  destruct D as [D|(env & -> & E)].
  - now apply (subseq_NoDup _ _ D).
  - rewrite E. constructor; [exact Hf | exact Hnd].
Qed.

Lemma ids_kept_witness :
  let s := mkState [walk_dog] (str "Buy milk") None All in
  NoDup (map id (s_tasks (fst (run (handle (Submit sample_env)) s)))).
Proof.
  intros s. apply (proj2 (ids_kept (Submit sample_env) s)).
  - repeat constructor. simpl. tauto.
  - vm_compute. intros [H|[]]. discriminate H.
Defined.

(* ================================================================= *)
(** ** createId (line 59) *)

Lemma createId_not_empty now rnd : createId now rnd <> [].
Proof.
  unfold createId. intros H. apply app_eq_nil in H. destruct H as [_ H].
  discriminate H.
Qed.

Lemma run_all_cons h hs s : run_all (h :: hs) s = run_all hs (fst (run h s)).
Proof. reflexivity. Qed.

(** X6: a task that [addTask] has just added can be edited: its id is
    never the empty string that [if (editingId)] takes for "no edit", so
    [startEdit] on it, new text and a submit replace its text, at the
    front of a collection of the same length. *)
Theorem added_task_can_be_edited env env' v s :
  editing s = None -> trim (s_text s) <> [] -> trim v <> [] ->
  let t := newTask env (trim (s_text s)) in
  let s1 := fst (run (addTask env) s) in
  let s2 := run_all [startEdit t; changeText v; addTask env'] s1 in
  hd_error (s_tasks s1) = Some t
  /\ hd_error (s_tasks s2) = Some (with_text t (trim v))
  /\ length (s_tasks s2) = length (s_tasks s1).
Proof.
  intros He Ht Hv. cbv zeta. rewrite (addTask_new env s Ht He).
  split; [reflexivity|].
  rewrite !run_all_cons. cbn [run_all fold_left].
  set (t := newTask env (trim (s_text s))).
  set (s' := fst (run (changeText v) _)).
  assert (Hed : editing s' = Some (id t)).
  { unfold s', editing. simpl.
    pose proof (createId_not_empty (clock_id env) (random36 env)) as Hne.
    destruct (createId (clock_id env) (random36 env)); [congruence|].
    reflexivity. }
  assert (Htx : trim (s_text s') <> []) by exact Hv.
  rewrite (addTask_edit env' s' (id t) Htx Hed). simpl.
  unfold edit_one at 1. rewrite str_eqb_refl.
  split; [reflexivity|]. now rewrite length_map.
Qed.

Lemma added_task_can_be_edited_witness :
  let s := mkState [walk_dog] (str "Buy milk") None All in
  hd_error (s_tasks (run_all [startEdit buy_milk;
                              changeText (str "Buy oat milk");
                              addTask later_env]
                             (fst (run (addTask sample_env) s))))
  = Some (with_text buy_milk (str "Buy oat milk")).
Proof.
  intros s.
  assert (He : editing s = None) by reflexivity.
  assert (Ht : trim (s_text s) <> []) by (vm_compute; discriminate).
  assert (Hv : trim (str "Buy oat milk") <> []) by (vm_compute; discriminate).
  exact (proj1 (proj2 (added_task_can_be_edited sample_env later_env
                         (str "Buy oat milk") s He Ht Hv))).
Defined.

Lemma digits_inj r n m : (2 <= r)%N -> digits r n = digits r m -> n = m.
Proof.
  intros Hr H. unfold digits in H.
  apply (f_equal (@rev N)) in H. rewrite !rev_involutive in H.
  rewrite <- (digits_rev_value r Hr _ n (log2_fuel n)).
  rewrite <- (digits_rev_value r Hr _ m (log2_fuel m)).
  now rewrite H.
Qed.

Lemma digits_small_radix r n :
  (2 <= r)%N -> Forall (fun d => d < r)%N (digits r n).
Proof.
  intros Hr. unfold digits. apply Forall_rev. now apply digits_rev_small.
Qed.

Lemma digit_char_inj d e :
  (d < 36)%N -> (e < 36)%N -> digit_char d = digit_char e -> d = e.
Proof.
  unfold digit_char. intros Hd He.
  destruct (N.ltb_spec d 10), (N.ltb_spec e 10); lia.
Qed.

Lemma digit_char_not_minus d : digit_char d <> 45%N.
Proof. unfold digit_char. destruct (N.ltb_spec d 10); lia. Qed.

Lemma map_digit_char_inj l1 : forall l2,
  Forall (fun d => d < 36)%N l1 -> Forall (fun d => d < 36)%N l2 ->
  map digit_char l1 = map digit_char l2 -> l1 = l2.
Proof.
  induction l1 as [|d l1 IH]; intros [|e l2] H1 H2 E; try discriminate E.
  - reflexivity.
  - inversion H1; inversion H2; subst. injection E as E1 E2.
    f_equal; [now apply digit_char_inj | now apply IH].
Qed.

Lemma digit_chars_no_minus l : ~ In 45%N (map digit_char l).
Proof.
  intros H. apply in_map_iff in H. destruct H as (d & E & _).
  now apply (digit_char_not_minus d).
Qed.

Lemma digits_not_nil r n : digits r n <> [].
Proof.
  unfold digits. simpl digits_rev. destruct (n <? r)%N; simpl.
  - discriminate.
  - intros H. apply app_eq_nil in H. destruct H as [_ H]. discriminate H.
Qed.

(** Numbers that print alike in base 36 are equal. *)
Lemma toString36_inj z1 z2 : toString 36 z1 = toString 36 z2 -> z1 = z2.
Proof.
  unfold toString. intros H.
  assert (Hr : (2 <= 36)%N) by lia.
  assert (Hhead : forall n rest, 45%N :: rest = map digit_char (digits 36 n)
                                 -> False).
  { intros n rest E. apply (digit_chars_no_minus (digits 36 n)).
    rewrite <- E. now left. }
  assert (Habs : map digit_char (digits 36 (Z.abs_N z1))
                 = map digit_char (digits 36 (Z.abs_N z2))
                 -> Z.abs_N z1 = Z.abs_N z2).
  { intros E. apply (digits_inj 36 _ _ Hr).
    apply map_digit_char_inj; [now apply digits_small_radix.. | exact E]. }
  destruct (Z.ltb_spec z1 0), (Z.ltb_spec z2 0); simpl in H.
  - injection H as H. apply Habs in H. lia.
  - exfalso. now apply (Hhead _ _ H).
  - exfalso. symmetry in H. now apply (Hhead _ _ H).
  - apply Habs in H. lia.
Qed.

(** Equal texts, cut at a character that comes last in neither tail. *)
Lemma app_pivot_last (c : N) a1 : forall a2 b1 b2,
  ~ In c a1 -> ~ In c a2 ->
  a1 ++ c :: b1 = a2 ++ c :: b2 -> a1 = a2 /\ b1 = b2.
Proof.
  induction a1 as [|x a1 IH]; intros [|y a2] b1 b2 H1 H2 E; simpl in *.
  - injection E as <-. auto.
  - injection E as <- _. tauto.
  - injection E as -> _. tauto.
  - injection E as <- E. destruct (IH a2 b1 b2) as [-> ->]; auto.
Qed.

(** X7: the id tells the clock reading it was built from: when the
    random part holds no hyphen (it is made of base-36 digits), two ids
    are equal only if they were built in the same millisecond from the same
    five random characters. *)
Theorem createId_inj now1 rnd1 now2 rnd2 :
  ~ In 45%N (slice 2 7 rnd1) -> ~ In 45%N (slice 2 7 rnd2) ->
  createId now1 rnd1 = createId now2 rnd2 ->
  now1 = now2 /\ slice 2 7 rnd1 = slice 2 7 rnd2.
Proof.
  unfold createId. intros H1 H2 E.
  apply (f_equal (@rev N)) in E. rewrite !rev_app_distr in E.
  change (rev (str "-")) with [45%N] in E. rewrite <- !app_assoc in E.
  simpl app in E.
  apply app_pivot_last in E; try (rewrite <- in_rev; assumption).
  destruct E as [Es Et].
  apply (f_equal (@rev N)) in Es, Et. rewrite !rev_involutive in Es, Et.
  split; [now apply toString36_inj | exact Es].
Qed.

Lemma createId_inj_witness :
  createId 1700000000000 (str "0.k3x9qzzz") = id buy_milk
  /\ (createId 1700000000000 (str "0.k3x9qzzz")
      = createId 1700000000001 (str "0.k3x9qzzz") -> False).
Proof.
  split; [vm_compute; reflexivity|]. intros E.
  assert (H : ~ In 45%N (slice 2 7 (str "0.k3x9qzzz"))).
  { vm_compute. intros H. repeat (destruct H as [H|H]; [discriminate H|]).
    exact H. }
  destruct (createId_inj _ _ _ _ H H E) as [E' _]. discriminate E'.
Defined.

(* ================================================================= *)
(** ** Editing (lines 86-95 and 116-119) *)

Lemma run_all_app hs1 hs2 s :
  run_all (hs1 ++ hs2) s = run_all hs2 (run_all hs1 s).
Proof. unfold run_all. apply fold_left_app. Qed.

Lemma run_all_changeText vs : forall s,
  vs <> [] ->
  run_all (map changeText vs) s
  = mkState (s_tasks s) (last vs []) (s_editingId s) (s_filter s).
Proof.
  induction vs as [|v vs IH]; intros s Hne; [congruence|].
  destruct vs as [|v' vs].
  - reflexivity.
  - change (run_all (map changeText (v :: v' :: vs)) s)
      with (run_all (map changeText (v' :: vs)) (fst (run (changeText v) s))).
    rewrite IH by discriminate. reflexivity.
Qed.

(** The Enter key submits, the Escape key cancels, any other key does
    nothing. *)
Lemma onInputKeyDown_cases key env s :
  fst (run (onInputKeyDown key env) s)
  = if str_eqb key (str "Enter") then fst (run (addTask env) s)
    else if str_eqb key (str "Escape") then fst (run cancelEdit s)
    else s.
Proof.
  unfold run, onInputKeyDown. cbn [fst].
  destruct (str_eqb key (str "Enter")) eqn:E1.
  - apply str_eqb_eq in E1. subst key.
    change (str_eqb (str "Enter") (str "Escape")) with false.
    now rewrite app_nil_r.
  - destruct (str_eqb key (str "Escape")); reflexivity.
Qed.

(** X8: an edit that is given up leaves nothing behind: after [startEdit]
    on any task, any typing, and the Escape key or the Cancel button, the
    collection and the filter are what they were, the input is empty and no
    edit is in progress. *)
Theorem abandoned_edit task vs env s :
  let after := mkState (s_tasks s) [] None (s_filter s) in
  run_all ([startEdit task] ++ map changeText vs
           ++ [onInputKeyDown (str "Escape") env]) s = after
  /\ run_all ([startEdit task] ++ map changeText vs ++ [cancelEdit]) s = after.
Proof.
  cbv zeta. rewrite !run_all_app.
  assert (H : forall s', s_tasks s' = s_tasks s -> s_filter s' = s_filter s ->
              fst (run cancelEdit s') = mkState (s_tasks s) [] None (s_filter s)).
  { intros s' <- <-. reflexivity. }
  assert (Hs : s_tasks (run_all (map changeText vs) (run_all [startEdit task] s))
               = s_tasks s
               /\ s_filter (run_all (map changeText vs)
                              (run_all [startEdit task] s)) = s_filter s).
  { destruct vs as [|v vs]; [split; reflexivity|].
    rewrite run_all_changeText by discriminate. split; reflexivity. }
  destruct Hs as [H1 H2]. split.
  - change (run_all [onInputKeyDown (str "Escape") env] ?x)
      with (fst (run (onInputKeyDown (str "Escape") env) x)).
    rewrite onInputKeyDown_cases.
    change (str_eqb (str "Escape") (str "Enter")) with false.
    change (str_eqb (str "Escape") (str "Escape")) with true.
    cbv iota. now apply H.
  - change (run_all [cancelEdit] ?x) with (fst (run cancelEdit x)).
    now apply H.
Qed.

(** X9: only a submit of input that is not blank, a toggle, a removal
    and "Clear completed" reach [localStorage]: after any other action
    (typing, starting or cancelling an edit, choosing a filter, submitting
    blank input) the collection, the slot and the trace are what they
    were, whether or not storage works. *)
Theorem quiet_actions ok ev w :
  match ev with
  | Toggle _ | Remove _ | ClearCompleted => False
  | Submit _ => forallb is_space (s_text (state w)) = true
  | _ => True
  end ->
  let w1 := fst (dispatch ok ev w) in
  s_tasks (state w1) = s_tasks (state w)
  /\ slot w1 = slot w /\ trace w1 = trace w.
Proof.
  intros H. cbv zeta. unfold dispatch.
  destruct ev as [env|v|task| |i|i| |f]; try contradiction;
    cbn [handle]; try (repeat split; reflexivity).
  apply trim_nil in H. unfold addTask. rewrite H. repeat split.
Qed.

Lemma quiet_actions_witness :
  let w := mkWorld (mkState [buy_milk] (str "  ") None All) None [] in
  fst (dispatch false (Submit sample_env) w) = w
  /\ slot (fst (dispatch true (StartEdit buy_milk) w)) = None.
Proof.
  intros w. split; [vm_compute; reflexivity|].
  exact (proj1 (proj2 (quiet_actions true (StartEdit buy_milk) w I))).
Defined.

Lemma map_edit_same l : forall x,
  NoDup (map id l) -> In x l -> map (edit_one (id x) (text x)) l = l.
Proof.
  intros x Hnd Hx. rewrite <- (map_id l) at 2. apply map_ext_in.
  intros t Ht. unfold edit_one.
  destruct (str_eqb (id t) (id x)) eqn:E; [|reflexivity].
  apply str_eqb_eq in E. rewrite (nodup_id_inj l t x Hnd Ht Hx E).
  now destruct x.
Qed.

(** X10: opening a task for editing and saving without typing changes
    nothing, for a stored task with a non-empty id and a trimmed text,
    where ids are distinct: the collection is the same, and the component
    is back to an empty input with no edit in progress. *)
Theorem edit_without_typing env s x :
  In x (s_tasks s) -> id x <> [] ->
  text x <> [] -> trim (text x) = text x ->
  NoDup (map id (s_tasks s)) ->
  run_all [startEdit x; addTask env] s
  = mkState (s_tasks s) [] None (s_filter s).
Proof.
  intros Hx Hid Hne Htr Hnd. rewrite run_all_cons.
  change (run_all [addTask env] ?y) with (fst (run (addTask env) y)).
  set (s' := fst (run (startEdit x) s)).
  assert (He : editing s' = Some (id x)).
  { unfold s', editing. simpl. destruct (id x); [congruence | reflexivity]. }
  assert (Ht : trim (s_text s') <> []).
  { unfold s'. simpl. now rewrite Htr. }
  rewrite (addTask_edit env s' (id x) Ht He). unfold s'. simpl.
  rewrite Htr, (map_edit_same (s_tasks s) x Hnd Hx). reflexivity.
Qed.

Lemma edit_without_typing_witness :
  let s := mkState [walk_dog; buy_milk] [] None Active in
  run_all [startEdit buy_milk; addTask sample_env] s = s.
Proof.
  intros s.
  apply (edit_without_typing sample_env s buy_milk).
  - simpl. auto.
  - vm_compute. discriminate.
  - vm_compute. discriminate.
  - vm_compute. reflexivity.
  - vm_compute. repeat constructor; simpl; intuition discriminate.
Defined.

(** X11: [removeTask] does not end an edit in progress.  When the task
    under edit (its id not empty) is removed and the new text is then
    submitted, the edit branch runs on an id that no task has: nothing is
    added, the typed text is dropped, and the collection is the one the
    removal left. *)
Theorem remove_during_edit env v s x :
  id x <> [] -> trim v <> [] ->
  let s3 := run_all [startEdit x; changeText v; removeTask (id x)] s in
  s_editingId s3 = Some (id x) /\ s_text s3 = v
  /\ fst (run (addTask env) s3)
     = mkState (filter (fun t => negb (str_eqb (id t) (id x))) (s_tasks s))
               [] None (s_filter s).
Proof.
  intros Hid Hv. cbv zeta.
  set (s3 := run_all _ s).
  assert (E3 : s3 = mkState (filter (fun t => negb (str_eqb (id t) (id x)))
                               (s_tasks s)) v (Some (id x)) (s_filter s))
    by reflexivity.
  split; [now rewrite E3|]. split; [now rewrite E3|].
  assert (He : editing s3 = Some (id x)).
  { rewrite E3. unfold editing. simpl.
    destruct (id x); [congruence | reflexivity]. }
  assert (Ht : trim (s_text s3) <> []) by (rewrite E3; exact Hv).
  rewrite (addTask_edit env s3 (id x) Ht He). rewrite E3. simpl.
  rewrite map_edit_absent; [reflexivity|].
  intros Hin. apply in_map_iff in Hin. destruct Hin as (t & Et & Ht').
  apply filter_In in Ht'. destruct Ht' as [_ Hneq].
  apply negb_true_iff, str_eqb_neq in Hneq. contradiction.
Qed.

Lemma remove_during_edit_witness :
  let s := mkState [walk_dog; buy_milk] [] None All in
  fst (run (addTask sample_env)
         (run_all [startEdit buy_milk; changeText (str "Buy oat milk");
                   removeTask (id buy_milk)] s))
  = mkState [walk_dog] [] None All.
Proof.
  intros s.
  assert (Hid : id buy_milk <> []) by (vm_compute; discriminate).
  assert (Hv : trim (str "Buy oat milk") <> []) by (vm_compute; discriminate).
  destruct (remove_during_edit sample_env (str "Buy oat milk") s buy_milk
              Hid Hv) as (_ & _ & H).
  rewrite H. vm_compute. reflexivity.
Defined.

(* ================================================================= *)
(** ** The views and the counters (lines 109-113, 186, 197) *)

(** X12: the number shown as "total" is the number of active tasks plus
    the number of completed ones, and "No tasks to show." appears exactly
    when no stored task passes the chosen filter; under "all" that is
    when the collection is empty. *)
Theorem counters s :
  totalCount s
  = length (list_view Active s) + length (list_view Completed s)
  /\ (emptyShown s = true
      <-> forall t, In t (s_tasks s) -> shown (s_filter s) t = false)
  /\ (s_filter s = All -> (emptyShown s = true <-> s_tasks s = [])).
Proof.
  unfold totalCount, emptyShown, list_view, filteredTasks.
  cbn [s_tasks s_filter].
  split; [apply length_filter_completed|].
  assert (H : forall l f, (length (filter (shown f) l) =? 0)%nat = true
                          <-> forall t, In t l -> shown f t = false).
  { intros l f. rewrite Nat.eqb_eq. induction l as [|t l IH]; simpl.
    - split; [intros _ t [] | reflexivity].
    - destruct (shown f t) eqn:E; simpl.
      + split; [discriminate|]. intros H. specialize (H t (or_introl eq_refl)).
        congruence.
      + rewrite IH. split; [intros H u [<-|Hu]; auto | auto]. }
  split; [apply H|]. intros Hf. rewrite H, Hf. split.
  - intros Hall. destruct (s_tasks s) as [|t l]; [reflexivity|].
    specialize (Hall t (or_introl eq_refl)). discriminate Hall.
  - intros ->. intros t [].
Qed.

Lemma filter_filter_comm {A} (p q : A -> bool) l :
  filter p (filter q l) = filter q (filter p l).
Proof.
  induction l as [|x l IH]; simpl; [reflexivity|].
  destruct (p x) eqn:Ep, (q x) eqn:Eq; simpl; rewrite ?Ep, ?Eq, IH; reflexivity.
Qed.

(** X13: after "Clear completed" the completed view is empty, and the
    active view and the full view are both what the active view was. *)
Theorem clearCompleted_views s :
  let s1 := fst (run clearCompleted s) in
  list_view Completed s1 = []
  /\ list_view Active s1 = list_view Active s
  /\ list_view All s1 = list_view Active s.
Proof.
  unfold list_view, filteredTasks. simpl. split; [|split].
  - induction (s_tasks s) as [|t l IH]; simpl; [reflexivity|].
    destruct (completed t) eqn:E; simpl; [exact IH|]. now rewrite E.
  - apply filter_idem.
  - apply filter_all. reflexivity.
Qed.

Lemma toggle_views_others f i l :
  filter (fun t => negb (str_eqb (id t) i))
         (filter (shown f) (map (toggle_one i) l))
  = filter (fun t => negb (str_eqb (id t) i)) (filter (shown f) l).
Proof.
  rewrite !(filter_filter_comm (fun t => negb (str_eqb (id t) i))).
  f_equal. induction l as [|t l IH]; simpl; [reflexivity|].
  assert (Hid : id (toggle_one i t) = id t).
  { unfold toggle_one. now destruct (str_eqb (id t) i). }
  rewrite Hid. destruct (str_eqb (id t) i) eqn:E; simpl; [exact IH|].
  f_equal; [unfold toggle_one; now rewrite E | exact IH].
Qed.

(** X14: a toggle moves a task from one view to the other and leaves the
    rest of every view alone: apart from the tasks with the toggled id,
    each view holds what it held; the toggled task is found, flipped, in
    the view it was not in; and where ids are distinct its id is gone from
    the view it was in. *)
Theorem toggle_moves_between_views s x :
  In x (s_tasks s) ->
  let i := id x in
  let s1 := fst (run (toggleComplete i) s) in
  let was := if completed x then Completed else Active in
  let now := if completed x then Active else Completed in
  (forall f, filter (fun t => negb (str_eqb (id t) i)) (list_view f s1)
             = filter (fun t => negb (str_eqb (id t) i)) (list_view f s))
  /\ In (with_toggled x) (list_view now s1)
  /\ (NoDup (map id (s_tasks s)) -> ~ In i (map id (list_view was s1))).
Proof.
  intros Hx. cbv zeta. unfold list_view, filteredTasks. simpl.
  split; [intros f; apply toggle_views_others|]. split.
  - apply filter_In. split.
    + apply in_map_iff. exists x. split; [|exact Hx].
      unfold toggle_one. now rewrite str_eqb_refl.
    + destruct x as [a b c d]. destruct c; reflexivity.
  - intros Hnd Hin. apply in_map_iff in Hin.
    destruct Hin as (t & Et & Ht). apply filter_In in Ht.
    destruct Ht as [Ht Hs]. apply in_map_iff in Ht.
    destruct Ht as (u & <- & Hu).
    assert (Eu : id u = id x).
    { rewrite <- Et. unfold toggle_one.
      now destruct (str_eqb (id u) (id x)). }
    rewrite (nodup_id_inj (s_tasks s) u x Hnd Hu Hx Eu) in Hs.
    unfold toggle_one in Hs. rewrite str_eqb_refl in Hs.
    destruct x as [a b c d]. destruct c; discriminate Hs.
Qed.

Lemma toggle_moves_between_views_witness :
  let s := mkState [walk_dog; buy_milk] [] None All in
  In (with_toggled buy_milk)
     (list_view Completed (fst (run (toggleComplete (id buy_milk)) s))).
Proof.
  intros s.
  assert (Hx : In buy_milk (s_tasks s)) by (simpl; auto).
  exact (proj1 (proj2 (toggle_moves_between_views s buy_milk Hx))).
Defined.

(* ================================================================= *)
(** ** Sessions (lines 17-25 and 43-51) *)








(** X16: when the slot is missing, holds the empty string, cannot be
    read, or holds text that is not JSON, the component mounts with no
    task, an empty input, no edit and the filter "all"; the effect then
    writes the empty array to the slot, or leaves the slot alone if the
    write fails. *)
Theorem mount_starts_empty readable stored ok :
  readable = false \/ stored = None \/ stored = Some []
  \/ (exists raw, stored = Some raw /\ JSON_parse raw = None) ->
  exists w,
    mount readable stored ok = Some w
    /\ state w = empty_state
    /\ slot w = (if ok then Some (str "[]") else stored).
Proof.
  intros H.
  assert (E : fst (initial_tasks (if readable then GetItem stored
                                  else GetItemThrows)) = JArr []).
  { apply initial_tasks_fallback.
    destruct readable; [|exact I].
    destruct H as [H|[->|[->|(raw & -> & Hp)]]];
      [discriminate H | exact I | now left | now right]. }
  unfold mount. destruct (initial_tasks _) as [v log]. simpl in E. subst v.
  simpl. eexists. split; [reflexivity|]. destruct ok; split; reflexivity.
Qed.

Lemma mount_starts_empty_witness :
  exists w,
    mount true (Some (str "[{oops")) true = Some w
    /\ state w = empty_state
    /\ slot w = Some (str "[]").
Proof.
  apply (mount_starts_empty true (Some (str "[{oops")) true).
  right. right. right. exists (str "[{oops").
  split; [reflexivity | vm_compute; reflexivity].
Defined.



(** X18: a write that goes through puts things right, whatever the slot
    held: after a toggle, a removal, "Clear completed" or a submit of
    input that is not blank, even one that changed no task, the slot
    holds the serialized collection. *)
Theorem successful_write_syncs ev w :
  match ev with
  | Toggle _ | Remove _ | ClearCompleted => True
  | Submit _ => trim (s_text (state w)) <> []
  | _ => False
  end ->
  synced (fst (dispatch true ev w)).
Proof.
  intros H. unfold synced, dispatch.
  destruct ev as [env|v|task| |i|i| |f]; try contradiction;
    cbn [handle]; try reflexivity.
  unfold addTask. apply truthy_str_true in H. rewrite H. simpl.
  destruct (editing (state w)); reflexivity.
Qed.

Lemma successful_write_syncs_witness :
  let w := mkWorld (mkState [buy_milk] [] None All) (Some (str "{}")) [] in
  slot (fst (dispatch true (Toggle (str "no such id")) w))
  = Some (JSON_stringify [buy_milk]).
Proof.
  intros w.
  exact (successful_write_syncs (Toggle (str "no such id")) w I).
Defined.



(* ================================================================= *)
(** ** Newest first (line 82) *)

(** X20: tasks are listed newest first.  When no edit is in progress,
    typing and submitting a run of inputs, none of them blank, puts the new
    tasks in front of the collection in the reverse of the order they were
    entered, each with its trimmed text, and leaves the former tasks behind
    them as they were. *)
Theorem newest_first inputs : forall s,
  editing s = None ->
  Forall (fun p => trim (fst p) <> []) inputs ->
  s_tasks (run_all (flat_map (fun p => [changeText (fst p); addTask (snd p)])
                             inputs) s)
  = rev (map (fun p => newTask (snd p) (trim (fst p))) inputs) ++ s_tasks s.
Proof.
  induction inputs as [|[v env] inputs IH]; intros s He Hall; [reflexivity|].
  inversion Hall as [|p l Hv Hrest]; subst. simpl in Hv.
  cbn [flat_map app fst snd]. rewrite !run_all_cons.
  set (s1 := fst (run (changeText v) s)).
  assert (He1 : editing s1 = None) by exact He.
  assert (Ht1 : trim (s_text s1) <> []) by exact Hv.
  rewrite (addTask_new env s1 Ht1 He1).
  rewrite IH; [|exact He|exact Hrest].
  simpl. now rewrite <- app_assoc.
Qed.

Lemma newest_first_witness :
  s_tasks (run_all [changeText (str "Buy milk"); addTask sample_env;
                    changeText (str " Walk dog "); addTask later_env]
                   empty_state)
  = [walk_dog; buy_milk].
Proof.
  assert (He : editing empty_state = None) by reflexivity.
  assert (Hall : Forall (fun p : jsstring * Env => trim (fst p) <> [])
                   [(str "Buy milk", sample_env);
                    (str " Walk dog ", later_env)]).
  { repeat constructor; vm_compute; discriminate. }
  exact (newest_first _ empty_state He Hall).
Defined.
